(** * cs_course_enrollment.py: the reporting and extraction logic, verified

    A shallow embedding of [src/cs_course_enrollment.py].  The script scrapes
    course enrollment figures with a browser, prints them as an aligned table
    with a second table of "courses of interest", and optionally writes them
    to a CSV file.

    Layout of this file:
    - [Py]: the Python values the script computes with (text, exceptions)
      and the built-ins it calls ([str.split], [str.strip], [int], [len],
      [max], the [<width] format specification, the strict UTF-8 codec
      of a file opened with [encoding='utf-8']);
    - [Csv]: the [csv] module's writer with its default dialect, and the
      matching reader used to state the round trip;
    - [Selenium]: a scripted browser, the capability interface the script
      drives;
    - the script's own definitions, under the names they have in the source,
      [main] included;
    - the properties. *)

From Stdlib Require Import ZArith NArith Arith List Bool String Ascii Lia.
From Stdlib Require DecimalNat.
From stdpp Require Import list.
Import ListNotations.

Local Open Scope nat_scope.

(* ===================================================================== *)
(** ** Python values and built-ins *)
(* ===================================================================== *)

Module Py.

(** A Python [str] is a sequence of Unicode code points; [len] counts code
    points, and so does the padding of a format specification. *)
Definition char := N.
Definition str := list char.

(** ASCII literals of the source, as [str]. *)
Fixpoint u (s : string) : str :=
  match s with
  | EmptyString => []
  | String a r => N_of_ascii a :: u r
  end.

Definition LF : char := 10%N.
Definition CR : char := 13%N.
Definition SPACE : char := 32%N.
Definition QUOTE : char := 34%N.
Definition PLUS : char := 43%N.
Definition COMMA : char := 44%N.
Definition MINUS : char := 45%N.
Definition SLASH : char := 47%N.
Definition ZERO : char := 48%N.
Definition QUESTION : char := 63%N.
Definition UNDERSCORE : char := 95%N.
(** U+2264, the "less than or equal" sign of the flagged section's label. *)
Definition LE_SIGN : char := 8804%N.

(** [len] of a [str] or of a list. *)
Definition len {A} (s : list A) : nat := length s.

(** The exceptions (all derived from [Exception]) that the calls of the
    script raise.  [KeyboardInterrupt] and [SystemExit], which
    [except Exception] lets through, are outside the model. *)
Inductive exn :=
| ValueError
| NoSuchElementException
| StaleElementReferenceException
| TimeoutException
| UnexpectedTagNameException
| NotImplementedError
| WebDriverException
| CsvError
| UnicodeEncodeError
| UnicodeDecodeError
| OSError.

Inductive result (A : Type) :=
| Ok (a : A)
| Raise (e : exn).
Arguments Ok {A} a.
Arguments Raise {A} e.

Definition bind {A B} (k : A -> result B) (r : result A) : result B :=
  match r with
  | Ok a => k a
  | Raise e => Raise e
  end.

#[global] Instance result_ret : MRet result := @Ok.
#[global] Instance result_bind : MBind result := @bind.

(** [Py_UNICODE_ISSPACE]: the characters [str.strip()] removes. *)
Definition isspace (c : char) : bool :=
  ((9 <=? c) && (c <=? 13) || (28 <=? c) && (c <=? 32)
   || (c =? 133) || (c =? 160) || (c =? 5760)
   || (8192 <=? c) && (c <=? 8202)
   || (c =? 8232) || (c =? 8233) || (c =? 8239) || (c =? 8287)
   || (c =? 12288))%N.

(** [Py_ISSPACE]: the ASCII white space that [int] skips by itself. *)
Definition isspace_ascii (c : char) : bool :=
  ((9 <=? c) && (c <=? 13) || (c =? 32))%N.

Fixpoint lstrip (s : str) : str :=
  match s with
  | [] => []
  | c :: r => if isspace c then lstrip r else s
  end.

(** [s.strip()]: white space is dropped from the left, then from the right. *)
Definition strip (s : str) : str := rev (lstrip (rev (lstrip s))).

(** Texts that [strip] removes entirely. *)
Definition all_space (s : str) : Prop := Forall (fun c => isspace c = true) s.

(** [s.split(sep)] for a one-character separator: every occurrence of the
    separator cuts; the result is never empty ([''.split('/') == ['']]). *)
Fixpoint split_aux (sep : char) (cur : str) (s : str) : list str :=
  match s with
  | [] => [rev cur]
  | c :: r => if (c =? sep)%N then rev cur :: split_aux sep [] r
              else split_aux sep (c :: cur) r
  end.

Definition split (sep : char) (s : str) : list str := split_aux sep [] s.

(** The format specification [<w] applied to a [str]: pad with spaces on the
    right up to [w] code points, never truncate. *)
Definition ljust (w : nat) (s : str) : str := s ++ repeat SPACE (w - len s).

(** [max] of a non-empty iterable, given as its first element and the rest. *)
Definition max_of (x : nat) (xs : list nat) : nat := fold_left Nat.max xs x.

(** [str(n)] for a natural number, as used by the f-string of [save_csv]. *)
Fixpoint digits_of_uint (d : Decimal.uint) : str :=
  match d with
  | Decimal.Nil => []
  | Decimal.D0 r => 48%N :: digits_of_uint r
  | Decimal.D1 r => 49%N :: digits_of_uint r
  | Decimal.D2 r => 50%N :: digits_of_uint r
  | Decimal.D3 r => 51%N :: digits_of_uint r
  | Decimal.D4 r => 52%N :: digits_of_uint r
  | Decimal.D5 r => 53%N :: digits_of_uint r
  | Decimal.D6 r => 54%N :: digits_of_uint r
  | Decimal.D7 r => 55%N :: digits_of_uint r
  | Decimal.D8 r => 56%N :: digits_of_uint r
  | Decimal.D9 r => 57%N :: digits_of_uint r
  end.

Definition str_of_nat (n : nat) : str := digits_of_uint (Nat.to_uint n).

(** *** The [utf-8] codec, strict

    What a text file opened with [encoding='utf-8'] holds is bytes, here
    numbers below 256.  A surrogate has no encoding: the write that meets
    one raises [UnicodeEncodeError].  Python has no character above
    U+10FFFF; the model, whose [char] is wider, refuses these values too. *)
Definition bytes := list N.

(** The Unicode scalar values: the code points that are not surrogates. *)
Definition scalar (c : char) : bool :=
  ((c <? 0xD800) || (0xDFFF <? c) && (c <? 0x110000))%N.

Definition utf8_char (c : char) : option bytes :=
  (if c <? 0x80 then Some [c]
   else if c <? 0x800 then Some [0xC0 + c / 64; 0x80 + c mod 64]
   else if c <? 0x10000 then
     if (0xD800 <=? c) && (c <=? 0xDFFF) then None
     else Some [0xE0 + c / 4096; 0x80 + (c / 64) mod 64; 0x80 + c mod 64]
   else if c <? 0x110000 then
     Some [0xF0 + c / 262144; 0x80 + (c / 4096) mod 64;
           0x80 + (c / 64) mod 64; 0x80 + c mod 64]
   else None)%N.

(** [s.encode('utf-8')]. *)
Fixpoint utf8_encode (s : str) : result bytes :=
  match s with
  | [] => Ok []
  | c :: r =>
      match utf8_char c with
      | Some b => bs ← utf8_encode r; Ok (b ++ bs)
      | None => Raise UnicodeEncodeError
      end
  end.

Definition continuation (b : N) : bool := ((0x80 <=? b) && (b <=? 0xBF))%N.

(** [b.decode('utf-8')]: truncated and overlong sequences, stray
    continuation bytes, surrogates and values above U+10FFFF raise
    [UnicodeDecodeError]. *)
Fixpoint utf8_decode (b : bytes) : result str :=
  match b with
  | [] => Ok []
  | b0 :: r =>
      if (b0 <? 0x80)%N then s ← utf8_decode r; Ok (b0 :: s)
      else if ((0xC2 <=? b0) && (b0 <? 0xE0))%N then
        match r with
        | b1 :: r1 =>
            if continuation b1
            then s ← utf8_decode r1;
                 Ok (((b0 - 0xC0) * 64 + (b1 - 0x80))%N :: s)
            else Raise UnicodeDecodeError
        | _ => Raise UnicodeDecodeError
        end
      else if ((0xE0 <=? b0) && (b0 <? 0xF0))%N then
        match r with
        | b1 :: b2 :: r2 =>
            let c := ((b0 - 0xE0) * 4096 + (b1 - 0x80) * 64 + (b2 - 0x80))%N in
            if continuation b1 && continuation b2
               && (0x800 <=? c)%N && negb ((0xD800 <=? c) && (c <=? 0xDFFF))%N
            then s ← utf8_decode r2; Ok (c :: s)
            else Raise UnicodeDecodeError
        | _ => Raise UnicodeDecodeError
        end
      else if ((0xF0 <=? b0) && (b0 <? 0xF5))%N then
        match r with
        | b1 :: b2 :: b3 :: r3 =>
            let c := ((b0 - 0xF0) * 262144 + (b1 - 0x80) * 4096
                      + (b2 - 0x80) * 64 + (b3 - 0x80))%N in
            if continuation b1 && continuation b2 && continuation b3
               && (0x10000 <=? c)%N && (c <? 0x110000)%N
            then s ← utf8_decode r3; Ok (c :: s)
            else Raise UnicodeDecodeError
        | _ => Raise UnicodeDecodeError
        end
      else Raise UnicodeDecodeError
  end.

(** *** [int(s)] in base 10

    The two parameters are the interpreter's: the zero digits of the decimal
    digit runs of its Unicode database other than ASCII (U+0660, U+06F0,
    U+0966, ...; every run is ten consecutive code points), and the limit
    on the number of digits of a conversion ([sys.get_int_max_str_digits()],
    4300 by default since 3.11, [0] when there is no limit). *)
Section Int.

Variable unicode_zeros : list N.
Variable int_max_str_digits : nat.

(** [Py_UNICODE_TODECIMAL] outside ASCII. *)
Fixpoint to_decimal_in (zeros : list N) (c : char) : option N :=
  match zeros with
  | [] => None
  | z :: zs => if ((z <=? c) && (c <? z + 10))%N then Some (c - z)%N
               else to_decimal_in zs c
  end.

(** [_PyUnicode_TransformDecimalAndSpaceToASCII], one character: ASCII is
    kept, other white space becomes a space, other decimal digits become
    ASCII digits and anything else a ['?'], which no later step accepts. *)
Definition to_ascii (c : char) : char :=
  if (c <? 127)%N then c
  else if isspace c then SPACE
  else match to_decimal_in unicode_zeros c with
       | Some d => (ZERO + d)%N
       | None => QUESTION
       end.

Definition isdigit (c : char) : bool := ((48 <=? c) && (c <=? 57))%N.

(** The digit scan of [PyLong_FromString]: digits, single underscores
    between them.  [prev] tells whether the previous character was an
    underscore, [acc] is the value so far and [n] the number of digits.
    Returns the value, the digit count and the unread rest; [None] is the
    error exit. *)
Fixpoint scan (prev : bool) (acc : Z) (n : nat) (s : str)
  : option (Z * nat * str) :=
  match s with
  | c :: r =>
      if isdigit c then scan false (10 * acc + Z.of_N (c - 48)) (S n) r
      else if (c =? UNDERSCORE)%N then
             if prev then None else scan true acc n r
      else if prev then None else Some (acc, n, s)
  | [] => if prev then None else Some (acc, n, s)
  end.

Definition over_limit (n : nat) : bool :=
  (640 <? n) && (0 <? int_max_str_digits) && (int_max_str_digits <? n).

(** [PyLong_FromString] with base 10 on the transformed text: white space,
    an optional sign, the digits, white space, and nothing else.  Every
    failure is a [ValueError]. *)
Fixpoint skip_space (s : str) : str :=
  match s with
  | [] => []
  | c :: r => if isspace_ascii c then skip_space r else s
  end.

Definition read_sign (s : str) : Z * str :=
  match s with
  | c :: r => if (c =? PLUS)%N then (1%Z, r)
              else if (c =? MINUS)%N then ((-1)%Z, r)
              else (1%Z, s)
  | [] => (1%Z, s)
  end.

Definition starts_with_underscore (s : str) : bool :=
  match s with
  | c :: _ => (c =? UNDERSCORE)%N
  | [] => false
  end.

(** The digits after the sign, up to the end of the text. *)
Definition read_digits (sign : Z) (digits : str) : result Z :=
  if starts_with_underscore digits then Raise ValueError
  else match scan false 0 0 digits with
       | None => Raise ValueError
       | Some (v, n, rest) =>
           if over_limit n then Raise ValueError
           else if (n =? 0)%nat then Raise ValueError
           else match skip_space rest with
                | [] => Ok (sign * v)%Z
                | _ :: _ => Raise ValueError
                end
       end.

Definition long_from_string (s : str) : result Z :=
  let '(sign, digits) := read_sign (skip_space s) in
  read_digits sign digits.

Definition int (s : str) : result Z := long_from_string (map to_ascii s).

End Int.

End Py.

(* ===================================================================== *)
(** ** The [csv] module, default dialect *)
(* ===================================================================== *)

Module Csv.
Import Py.

(** *** [csv.writer(f)]

    The [excel] dialect: delimiter [','], the double quote as quote
    character (doubled inside a quoted field), line terminator ['\r\n'],
    [QUOTE_MINIMAL]. *)

(** The characters that make [join_append_data] quote a field. *)
Definition special (c : char) : bool :=
  ((c =? COMMA) || (c =? QUOTE) || (c =? CR) || (c =? LF))%N.

Definition escape (s : str) : str :=
  flat_map (fun c => if (c =? QUOTE)%N then [QUOTE; QUOTE] else [c]) s.

Definition field (s : str) : str :=
  if existsb special s then QUOTE :: escape s ++ [QUOTE] else escape s.

Fixpoint join (fields : list str) : str :=
  match fields with
  | [] => []
  | [f] => field f
  | f :: fs => field f ++ COMMA :: join fs
  end.

(** [writer.writerow(fields)]: the text appended to the file.  A row made of
    one empty field is written as an empty quoted field. *)
Definition writerow (fields : list str) : str :=
  match fields with
  | [ [] ] => [QUOTE; QUOTE; CR; LF]
  | _ => join fields ++ [CR; LF]
  end.

(** *** Reading a file back: [list(csv.reader(open(path, newline='')))] *)

(** The lines a text file opened with [newline=''] iterates over: a line
    ends after ['\n'], after ['\r\n'] or after a lone ['\r'], and keeps
    its ending.  [cur] is the line being read, last character first. *)
Fixpoint readlines_aux (cur : str) (s : str) : list str :=
  match s with
  | [] => match cur with [] => [] | _ :: _ => [rev cur] end
  | c :: r =>
      if (c =? LF)%N then rev (c :: cur) :: readlines_aux [] r
      else if (c =? CR)%N then
        match r with
        | c' :: r' =>
            if (c' =? LF)%N then rev (c' :: c :: cur) :: readlines_aux [] r'
            else rev (c :: cur) :: readlines_aux [] r
        | [] => [rev (c :: cur)]
        end
      else readlines_aux (c :: cur) r
  end.

Definition readlines (s : str) : list str := readlines_aux [] s.

(** The reader's automaton ([parse_process_char] of [_csv.c]) with the
    dialect's constants folded in: no escape character, initial spaces
    kept, not strict. *)
Inductive state :=
| START_RECORD
| START_FIELD
| IN_FIELD
| IN_QUOTED_FIELD
| QUOTE_IN_QUOTED_FIELD
| EAT_CRNL.

(** [fld] is the field being read and [flds] the fields of the record read
    so far. *)
Record parser := { st : state; fld : str; flds : list str }.

(** What the automaton is fed: a character, or the end of a line. *)
Inductive input :=
| Ch (c : char)
| EOL.

Definition set_state (s : state) (p : parser) : parser :=
  {| st := s; fld := fld p; flds := flds p |}.

Definition parse_save_field (p : parser) : parser :=
  {| st := st p; fld := []; flds := flds p ++ [fld p] |}.

Definition parse_add_char (p : parser) (c : char) : parser :=
  {| st := st p; fld := fld p ++ [c]; flds := flds p |}.

Definition parse_reset : parser :=
  {| st := START_RECORD; fld := []; flds := [] |}.

Definition is_newline (c : char) : bool := ((c =? LF) || (c =? CR))%N.

Definition start_field (p : parser) (i : input) : result parser :=
  match i with
  | EOL => Ok (set_state START_RECORD (parse_save_field p))
  | Ch c =>
      if is_newline c then Ok (set_state EAT_CRNL (parse_save_field p))
      else if (c =? QUOTE)%N then Ok (set_state IN_QUOTED_FIELD p)
      else if (c =? COMMA)%N then Ok (parse_save_field p)
      else Ok (set_state IN_FIELD (parse_add_char p c))
  end.

Definition parse_process_char (p : parser) (i : input) : result parser :=
  match st p with
  | START_RECORD =>
      match i with
      | EOL => Ok p
      | Ch c => if is_newline c then Ok (set_state EAT_CRNL p)
                else start_field (set_state START_FIELD p) i
      end
  | START_FIELD => start_field p i
  | IN_FIELD =>
      match i with
      | EOL => Ok (set_state START_RECORD (parse_save_field p))
      | Ch c =>
          if is_newline c then Ok (set_state EAT_CRNL (parse_save_field p))
          else if (c =? COMMA)%N
               then Ok (set_state START_FIELD (parse_save_field p))
          else Ok (parse_add_char p c)
      end
  | IN_QUOTED_FIELD =>
      match i with
      | EOL => Ok p
      | Ch c => if (c =? QUOTE)%N then Ok (set_state QUOTE_IN_QUOTED_FIELD p)
                else Ok (parse_add_char p c)
      end
  | QUOTE_IN_QUOTED_FIELD =>
      match i with
      | EOL => Ok (set_state START_RECORD (parse_save_field p))
      | Ch c =>
          if (c =? QUOTE)%N
          then Ok (set_state IN_QUOTED_FIELD (parse_add_char p c))
          else if (c =? COMMA)%N
               then Ok (set_state START_FIELD (parse_save_field p))
          else if is_newline c
               then Ok (set_state EAT_CRNL (parse_save_field p))
          else Ok (set_state IN_FIELD (parse_add_char p c))
      end
  | EAT_CRNL =>
      match i with
      | EOL => Ok (set_state START_RECORD p)
      | Ch c => if is_newline c then Ok p else Raise CsvError
      end
  end.

(** The characters of a line, then its end. *)
Fixpoint feed (p : parser) (s : str) : result parser :=
  match s with
  | [] => Ok p
  | c :: r => p' ← parse_process_char p (Ch c); feed p' r
  end.

Definition process_line (p : parser) (line : str) : result parser :=
  q ← feed p line; parse_process_char q EOL.

(** [Reader_iternext], iterated to the end of the input: lines are consumed
    until the automaton is back at [START_RECORD], which completes a record;
    input ending inside a record completes it too. *)
Fixpoint read (p : parser) (lines : list str) : result (list (list str)) :=
  match lines with
  | [] =>
      match fld p, st p with
      | _ :: _, _ | _, IN_QUOTED_FIELD => Ok [flds (parse_save_field p)]
      | _, _ => Ok []
      end
  | l :: ls =>
      p' ← process_line p l;
      match st p' with
      | START_RECORD => rows ← read parse_reset ls; Ok (flds p' :: rows)
      | _ => read p' ls
      end
  end.

Definition reader (lines : list str) : result (list (list str)) :=
  read parse_reset lines.

Definition read_back (file : str) : result (list (list str)) :=
  reader (readlines file).

(** The same on the bytes of the file:
    [list(csv.reader(open(path, newline='', encoding='utf-8')))]. *)
Definition read_file (file : bytes) : result (list (list str)) :=
  text ← utf8_decode file; read_back text.

(** The reader started a line in state [p], has read the characters [cur]
    of it (last first) and is now in state [q]. *)
Definition reading (p : parser) (cur : str) (q : parser) : Prop :=
  feed p (rev cur) = Ok q.

(** The states in which the field [f] has been read after the fields [F]
    and the next delimiter will store it. *)
Definition field_done (q : parser) (f : str) (F : list str) : Prop :=
  fld q = f /\ flds q = F
  /\ (st q = START_FIELD /\ f = [] \/ st q = IN_FIELD
      \/ st q = QUOTE_IN_QUOTED_FIELD).

End Csv.

(* ===================================================================== *)
(** ** A scripted browser *)
(* ===================================================================== *)

Module Selenium.
Import Py.

Inductive By := ID | XPATH | CSS_SELECTOR.

(** An element of the rendered page, as far as the script looks into it:
    [find_text sel] is what [el.find_element(By.CSS_SELECTOR, sel).text]
    evaluates to, a text or the exception raised on the way. *)
Record WebElement := { find_text : str -> result str }.

Record ChromeOptions := {
  arguments : list str;
  excludeSwitches : list str;
  useAutomationExtension : bool
}.

(** The steps of [get_driver] and [collect_courses] that reach outside the
    script, in the order of the source; each of them may raise. *)
Inductive command :=
| InstallDriver
| NewSession (options : ChromeOptions)
| Get (url : str)
| WaitPresence (timeout : nat) (by_ : By) (value : str)
| NewSelect
| DeselectAll
| SelectByValue (value : str)
| FindElement (by_ : By) (value : str)
| Click
| ExecuteScript (script : str)
| Sleep (seconds : nat)
| FindElements (by_ : By) (value : str)
| Quit.

(** The browser and the page behind it: how each step ends, and the
    elements a successful [find_elements] returns. *)
Record Browser := {
  respond : command -> result unit;
  elements : By -> str -> list WebElement
}.

(** Computations that talk to the browser: they may raise, and they extend
    the log of the requests made so far. *)
Definition M (A : Type) : Type := list command -> result A * list command.

Definition pure {A} (a : A) : M A := fun log => (Ok a, log).

Definition and_then {A B} (k : A -> M B) (m : M A) : M B :=
  fun log =>
    match m log with
    | (Ok a, log') => k a log'
    | (Raise e, log') => (Raise e, log')
    end.

#[global] Instance M_ret : MRet M := @pure.
#[global] Instance M_bind : MBind M := @and_then.

Definition call (b : Browser) (c : command) : M unit :=
  fun log => (respond b c, log ++ [c]).

(** [try: body finally: final].  The final block runs however the body
    ends; an exception of its own replaces the body's outcome. *)
Definition try_finally {A} (body : M A) (final : M unit) : M A :=
  fun log =>
    let '(r, log1) := body log in
    match final log1 with
    | (Ok _, log2) => (r, log2)
    | (Raise e, log2) => (Raise e, log2)
    end.

End Selenium.

(* ===================================================================== *)
(** ** The script *)
(* ===================================================================== *)

Import Py.

Record CourseInfo := MkCourseInfo {
  title : str;
  class_code : str;
  enrolled : str;
  wait_list : str
}.

(** *** Session launcher and extractor *)

Section Collect.

Import Selenium.
Variable browser : Browser.

Definition chrome_options (headless : bool) : ChromeOptions :=
  {| arguments :=
       (if headless then [u "--headless=new"] else [])
       ++ [u "--disable-gpu"; u "--no-sandbox";
           u "--disable-blink-features=AutomationControlled"];
     excludeSwitches := [u "enable-automation"];
     useAutomationExtension := false |}.

Definition get_driver (headless : bool) : M unit :=
  call browser InstallDriver ;;
  call browser (NewSession (chrome_options headless)).

(** The body of the [try] inside the loop over the result containers. *)
Definition read_box (box : WebElement) : result CourseInfo :=
  title ← find_text box (u "div.courseName");
  class_code ← find_text box (u "#classID .dataValue");
  enrolled ← find_text box (u "#enrollID .dataValue");
  wait_list ← find_text box (u "#waitID .dataValue");
  Ok (MkCourseInfo (strip title) (strip class_code)
                   (strip enrolled) (strip wait_list)).

(** [for box in course_boxes: try: ... courses.append(...) except
    Exception: continue]. *)
Definition extract (course_boxes : list WebElement) : list CourseInfo :=
  fold_left (fun courses box =>
               match read_box box with
               | Ok c => courses ++ [c]
               | Raise _ => courses
               end)
            course_boxes [].

Definition course_finder_url (term_code : str) : str :=
  u "https://banner.roosevelt.edu/ssbprod/bwskzenr.P_CourseFinder?TERM="
  ++ term_code.

Definition find_courses_xpath : str :=
  u "//button[span[contains(@class,'ui-button-text') and contains(text(),'FIND COURSES')]]".

Definition collect_courses (term_code : str) (headless : bool)
  : M (list CourseInfo) :=
  get_driver headless ;;
  try_finally
     (call browser (Get (course_finder_url term_code)) ;;
      call browser (WaitPresence 20 ID (u "subjects")) ;;
      call browser NewSelect ;;
      call browser DeselectAll ;;
      call browser (SelectByValue (u "CST")) ;;
      call browser (FindElement XPATH find_courses_xpath) ;;
      call browser Click ;;
      call browser
        (WaitPresence 20 CSS_SELECTOR (u "div.courseResultsBox .courseName")) ;;
      call browser
        (ExecuteScript (u "window.scrollTo(0, document.body.scrollHeight);")) ;;
      call browser (Sleep 1) ;;
      call browser (FindElements CSS_SELECTOR (u "div.courseResultsBox")) ;;
      pure (extract (elements browser CSS_SELECTOR (u "div.courseResultsBox"))))
     (call browser Quit).

End Collect.

(** *** Reporter *)

Section Report.

Variable unicode_zeros : list N.
Variable int_max_str_digits : nat.

(** The [try] body of [_parse_pair]: unpacking the split into two names
    raises [ValueError] unless there are exactly two parts. *)
Definition parse_pair_body (pair : str) : result (Z * Z) :=
  match split SLASH pair with
  | [current; limit] =>
      c ← Py.int unicode_zeros int_max_str_digits (strip current);
      l ← Py.int unicode_zeros int_max_str_digits (strip limit);
      Ok (c, l)
  | _ => Raise ValueError
  end.

Definition _parse_pair (pair : str) : Z * Z :=
  match parse_pair_body pair with
  | Ok p => p
  | Raise _ => (0%Z, 0%Z)
  end.

(** The condition of the loop that fills [flagged]. *)
Definition is_flagged (c : CourseInfo) : bool :=
  let '(enrolled_current, _) := _parse_pair (enrolled c) in
  let '(wait_current, _) := _parse_pair (wait_list c) in
  (enrolled_current <=? 10)%Z || (0 <? wait_current)%Z.

(** [flagged = []; for c in courses: if ...: flagged.append(c)]. *)
Definition flagged_of (courses : list CourseInfo) : list CourseInfo :=
  fold_left (fun flagged c => if is_flagged c then flagged ++ [c] else flagged)
            courses [].

Definition column_width (label : str) (column : CourseInfo -> str)
           (c : CourseInfo) (cs : list CourseInfo) : nat :=
  Nat.max (len label) (max_of (len (column c)) (map (fun c => len (column c)) cs)).

(** A table line: four left-aligned cells separated by two spaces. *)
Definition format_row (title_width class_width enrolled_width wait_width : nat)
           (a b c d : str) : str :=
  ljust title_width a ++ u "  " ++ ljust class_width b ++ u "  "
  ++ ljust enrolled_width c ++ u "  " ++ ljust wait_width d.

Definition no_courses_notice : str :=
  u "No courses were found.  Verify the term code and try again.".

Definition flagged_label : str :=
  [LF] ++ u "Courses of interest (" ++ [LE_SIGN]
  ++ u " 10 enrolled or students on the wait list):".

(** [print_courses(courses)]: the arguments of the successive [print]
    calls. *)
Definition print_courses (courses : list CourseInfo) : list str :=
  match courses with
  | [] => [no_courses_notice]
  | c0 :: cs =>
      let title_width := column_width (u "Title") title c0 cs in
      let class_width := column_width (u "Class") class_code c0 cs in
      let enrolled_width := column_width (u "Enrolled") enrolled c0 cs in
      let wait_width := column_width (u "Wait List") wait_list c0 cs in
      let row := format_row title_width class_width enrolled_width wait_width in
      let header := row (u "Title") (u "Class") (u "Enrolled") (u "Wait List") in
      let line (course : CourseInfo) :=
        row (title course) (class_code course)
            (enrolled course) (wait_list course) in
      let flagged := flagged_of courses in
      [header; repeat MINUS (len header)] ++ map line courses
      ++ match flagged with
         | [] => []
         | _ :: _ =>
             let flagged_header :=
               row (u "Title") (u "Class") (u "Enrolled") (u "Wait List") in
             [flagged_label; flagged_header;
              repeat MINUS (len flagged_header)]
             ++ map line flagged
         end
  end.

(** The header and the line of a course in the table of the non-empty
    [c0 :: cs], with the four widths [print_courses] computes for it. *)
Definition table_header (c0 : CourseInfo) (cs : list CourseInfo) : str :=
  format_row (column_width (u "Title") title c0 cs)
             (column_width (u "Class") class_code c0 cs)
             (column_width (u "Enrolled") enrolled c0 cs)
             (column_width (u "Wait List") wait_list c0 cs)
             (u "Title") (u "Class") (u "Enrolled") (u "Wait List").

Definition table_line (c0 : CourseInfo) (cs : list CourseInfo)
           (course : CourseInfo) : str :=
  format_row (column_width (u "Title") title c0 cs)
             (column_width (u "Class") class_code c0 cs)
             (column_width (u "Enrolled") enrolled c0 cs)
             (column_width (u "Wait List") wait_list c0 cs)
             (title course) (class_code course)
             (enrolled course) (wait_list course).

End Report.

(** *** CSV export *)

(** The file system, as far as the script meets it: how
    [open(path, 'w', ...)] ends, an [OSError] when the path cannot be
    opened; and whether the bytes handed to the open file reach it:
    [None] when they all do, [Some (e, n)] when a write or the closing of
    the file raises [e] with the first [n] bytes stored. *)
Record FileSystem := {
  open_w : str -> result unit;
  store : str -> bytes -> option (exn * nat)
}.

(** What [save_csv] did: how it ended, the bytes of the file at [path] when
    the file was opened, and the arguments of [print]. *)
Record Export := {
  outcome : result unit;
  file : option bytes;
  printed : list str
}.

(** The rows [save_csv] hands to the writer. *)
Definition csv_header : list str :=
  [u "Title"; u "Class"; u "Enrolled"; u "Wait List"].

Definition csv_fields (c : CourseInfo) : list str :=
  [title c; class_code c; enrolled c; wait_list c].

(** The [writerow] calls in order.  Each hands one row's text to the file,
    which encodes it as a whole: a row that cannot be encoded raises and
    adds nothing, and the rows before it stay written. *)
Fixpoint write_rows (rows : list (list str)) : bytes * option exn :=
  match rows with
  | [] => ([], None)
  | row :: rest =>
      match utf8_encode (Csv.writerow row) with
      | Ok b => let '(bs, e) := write_rows rest in (b ++ bs, e)
      | Raise e => ([], Some e)
      end
  end.

(** [save_csv(courses, path)]: [open], the header row, one row per course,
    and the message after the [with] block.  The block closes the file
    however it ends; an exception of the file system, raised by a write or
    by the closing, is the one that leaves the block, and the message is
    printed only when nothing was raised. *)
Definition save_csv (fs : FileSystem) (courses : list CourseInfo) (path : str)
  : Export :=
  match open_w fs path with
  | Raise e => {| outcome := Raise e; file := None; printed := [] |}
  | Ok _ =>
      let '(data, failed) := write_rows (csv_header :: map csv_fields courses) in
      match store fs path data, failed with
      | Some (e, n), _ =>
          {| outcome := Raise e; file := Some (take n data); printed := [] |}
      | None, Some e =>
          {| outcome := Raise e; file := Some data; printed := [] |}
      | None, None =>
          {| outcome := Ok tt; file := Some data;
             printed := [u "Saved " ++ str_of_nat (len courses)
                         ++ u " courses to " ++ path] |}
      end
  end.

(** The text of the whole file, header first. *)
Definition csv_text (courses : list CourseInfo) : str :=
  concat (map Csv.writerow (csv_header :: map csv_fields courses)).

(** *** A concrete interpreter and the scenario of the specification *)

(** The zero digits of Unicode 14.0.0 (CPython 3.11) and its default limit
    on the digits of a conversion. *)
Definition unicode_14_zeros : list N :=
  [1632; 1776; 1984; 2406; 2534; 2662; 2790; 2918; 3046; 3174; 3302; 3430;
   3558; 3664; 3792; 3872; 4160; 4240; 6112; 6160; 6470; 6608; 6784; 6800;
   6992; 7088; 7232; 7248; 42528; 43216; 43264; 43472; 43504; 43600; 44016;
   65296; 66720; 68912; 69734; 69872; 69942; 70096; 70384; 70736; 70864;
   71248; 71360; 71472; 71904; 72016; 72784; 73040; 73120; 92768; 92864;
   93008; 120782; 120792; 120802; 120812; 120822; 123200; 123632; 125264;
   130032]%N.

Definition default_max_str_digits : nat := 4300.

Definition intro_to_cs : CourseInfo :=
  MkCourseInfo (u "Intro to CS") (u "CST 150-01") (u "9 / 25") (u "0 / 0").

Definition data_structures : CourseInfo :=
  MkCourseInfo (u "Data Structures") (u "CST 250-01") (u "25 / 25") (u "3 / 5").

(** A result container given by the texts of its sub-fields; a locator
    that finds nothing raises. *)
Fixpoint lookup_text (fields : list (str * str)) (sel : str) : result str :=
  match fields with
  | [] => Raise NoSuchElementException
  | (k, v) :: r => if decide (k = sel) then Ok v else lookup_text r sel
  end.

Definition rendered (fields : list (str * str)) : Selenium.WebElement :=
  {| Selenium.find_text := lookup_text fields |}.

Definition intro_box : Selenium.WebElement :=
  rendered [(u "div.courseName", u " Intro to CS ");
            (u "#classID .dataValue", u "CST 150-01");
            (u "#enrollID .dataValue", u "9 / 25");
            (u "#waitID .dataValue", u "0 / 0")].

(** A container with no wait-list sub-field. *)
Definition box_without_wait_list : Selenium.WebElement :=
  rendered [(u "div.courseName", u "Data Structures");
            (u "#classID .dataValue", u "CST 250-01");
            (u "#enrollID .dataValue", u "25 / 25")].

(** A page that answers every request and shows the two containers, and a
    page on which the results never appear. *)
Definition two_box_page : Selenium.Browser :=
  {| Selenium.respond := fun _ => Ok tt;
     Selenium.elements := fun _ _ => [box_without_wait_list; intro_box] |}.

Definition stalled_page : Selenium.Browser :=
  {| Selenium.respond :=
       fun c => match c with
                | Selenium.WaitPresence _ Selenium.CSS_SELECTOR _ =>
                    Raise TimeoutException
                | _ => Ok tt
                end;
     Selenium.elements := fun _ _ => [] |}.

(** The four locators of [read_box]. *)
Definition sub_field_locators : list str :=
  [u "div.courseName"; u "#classID .dataValue";
   u "#enrollID .dataValue"; u "#waitID .dataValue"].

(** A request sequence that never asks to quit. *)
Definition quiet {A} (m : Selenium.M A) : Prop :=
  forall log, exists l, snd (m log) = log ++ l /\ Selenium.Quit ∉ l.

(** A record whose two counts are not numbers. *)
Definition unparseable : CourseInfo :=
  MkCourseInfo (u "Capstone") (u "CST 499-01") (u "bad") (u "bad").

(** A long title that is not flagged above a short one that is. *)
Definition operating_systems : CourseInfo :=
  MkCourseInfo (u "Operating Systems Principles") (u "CST 333-01")
               (u "25 / 30") (u "0 / 10").

Definition ethics : CourseInfo :=
  MkCourseInfo (u "Ethics") (u "CST 101-01") (u "9 / 25") (u "0 / 0").

(** *** The entry point *)

(** The namespace [parser.parse_args(argv)] returns; the parsing of the
    command line itself is [argparse]'s and is not modelled.  [csv_path] is
    [None] when [--csv] is absent. *)
Record Namespace := {
  term : str;
  csv_path : option str;
  show_browser : bool
}.

(** What a run does, in order: the steps of the browser session, the
    arguments of [print], the files written.  Standard output is a sink
    of lines: what [print] is given is recorded as it is. *)
Inductive event :=
| Driver (c : Selenium.command)
| Print (line : str)
| Write (path : str) (content : bytes).

Section Main.

Variable unicode_zeros : list N.
Variable int_max_str_digits : nat.
Variable browser : Selenium.Browser.
Variable fs : FileSystem.

(** The events of an export: the file as it is when closed, if it was
    opened, then what was printed. *)
Definition export_events (path : str) (x : Export) : list event :=
  match file x with
  | Some f => [Write path f]
  | None => []
  end ++ map Print (printed x).

(** [main]: the outcome (the return value, or the exception that ends the
    run) and the events.  [if args.csv_path:] holds for a path that is
    neither [None] nor empty; an exception of [save_csv] ends the run
    after the table was printed. *)
Definition main (args : Namespace) : result Z * list event :=
  let '(r, log) :=
    collect_courses browser (term args) (negb (show_browser args)) [] in
  match r with
  | Raise e => (Raise e, map Driver log)
  | Ok courses =>
      let table :=
        map Print (print_courses unicode_zeros int_max_str_digits courses) in
      match csv_path args with
      | Some (c :: p) =>
          let x := save_csv fs courses (c :: p) in
          (match outcome x with
           | Ok _ => Ok 0%Z
           | Raise e => Raise e
           end,
           map Driver log ++ table ++ export_events (c :: p) x)
      | Some [] | None => (Ok 0%Z, map Driver log ++ table)
      end
  end.

End Main.

(** *** Vocabulary of the further properties *)

(** The steps of the [try] block of [collect_courses], in order. *)
Definition body_steps (term_code : str) : list Selenium.command :=
  [Selenium.Get (course_finder_url term_code);
   Selenium.WaitPresence 20 Selenium.ID (u "subjects");
   Selenium.NewSelect;
   Selenium.DeselectAll;
   Selenium.SelectByValue (u "CST");
   Selenium.FindElement Selenium.XPATH find_courses_xpath;
   Selenium.Click;
   Selenium.WaitPresence 20 Selenium.CSS_SELECTOR
                         (u "div.courseResultsBox .courseName");
   Selenium.ExecuteScript
     (u "window.scrollTo(0, document.body.scrollHeight);");
   Selenium.Sleep 1;
   Selenium.FindElements Selenium.CSS_SELECTOR (u "div.courseResultsBox")].

(** The steps made until one raises, and the exception it raised. *)
Fixpoint run_steps (b : Selenium.Browser) (steps : list Selenium.command)
  : list Selenium.command * option exn :=
  match steps with
  | [] => ([], None)
  | c :: r =>
      match Selenium.respond b c with
      | Ok _ => let '(l, e) := run_steps b r in (c :: l, e)
      | Raise e => ([c], Some e)
      end
  end.

(** A printed table line: four cells separated by two spaces, each cell
    the value followed by spaces up to the width of its column. *)
Definition printed_row (w1 w2 w3 w4 : nat) (a b c d : str) (line : str)
  : Prop :=
  exists n1 n2 n3 n4,
    line = a ++ repeat SPACE n1 ++ [SPACE; SPACE]
           ++ b ++ repeat SPACE n2 ++ [SPACE; SPACE]
           ++ c ++ repeat SPACE n3 ++ [SPACE; SPACE]
           ++ d ++ repeat SPACE n4
    /\ length a + n1 = w1 /\ length b + n2 = w2
    /\ length c + n3 = w3 /\ length d + n4 = w4.

(** Fields the file can hold: Unicode scalar values only. *)
Definition encodable (c : CourseInfo) : Prop :=
  Forall (fun f => forallb scalar f = true) (csv_fields c).

(** A file system on which every path opens and every byte is stored, one
    on which no path opens, and one with room for 20 bytes. *)
Definition writable : FileSystem :=
  {| open_w := fun _ => Ok tt; store := fun _ _ => None |}.


Definition full_disk : FileSystem :=
  {| open_w := fun _ => Ok tt;
     store := fun _ data =>
       if length data <=? 20 then None else Some (OSError, 20) |}.

(** A title that ends with a lone surrogate, U+D800. *)
Definition surrogate_title : CourseInfo :=
  MkCourseInfo (u "Sur" ++ [0xD800%N]) (u "CST 150-01")
               (u "9 / 25") (u "0 / 0").

(** A text with no white space at either end. *)
Definition trimmed (s : str) : Prop :=
  (forall c, head s = Some c -> isspace c = false)
  /\ (forall c, last s = Some c -> isspace c = false).

Definition is_driver (ev : event) : Prop :=
  match ev with
  | Driver _ => True
  | Print _ | Write _ _ => False
  end.

Definition is_write (ev : event) : Prop :=
  match ev with
  | Write _ _ => True
  | Driver _ | Print _ => False
  end.

(** The command line [--term 202610], with or without [--csv]. *)
Definition fall_2025 (csv : option str) : Namespace :=
  {| term := u "202610"; csv_path := csv; show_browser := false |}.

(** A machine on which the driver cannot be installed. *)
Definition no_chrome : Selenium.Browser :=
  {| Selenium.respond :=
       fun c => match c with
                | Selenium.InstallDriver => Raise WebDriverException
                | _ => Ok tt
                end;
     Selenium.elements := fun _ _ => [] |}.

(** A seminar whose limit is not announced yet, and a title with a comma,
    a quotation and a line break. *)
Definition seminar : CourseInfo :=
  MkCourseInfo (u "Seminar") (u "CST 480-01") (u "25 / TBA") (u "0 / 0").

Definition awkward : CourseInfo :=
  MkCourseInfo (u "Data, " ++ [QUOTE] ++ u "Big" ++ [QUOTE; CR; LF] ++ u "and Small")
               (u "CST 301-01") (u "12 / 20") (u "0 / 5").

(* ===================================================================== *)
(** ** Properties of the built-ins *)
(* ===================================================================== *)

(** Boolean tests on code points, read as propositions. *)
Ltac nprop :=
  repeat match goal with
  | H : andb _ _ = true |- _ => apply andb_prop in H; destruct H
  | H : andb _ _ = false |- _ => apply andb_false_iff in H; destruct H
  | H : orb _ _ = true |- _ => apply orb_prop in H; destruct H
  | H : orb _ _ = false |- _ => apply orb_false_iff in H; destruct H
  | H : (_ =? _)%N = true |- _ => apply N.eqb_eq in H
  | H : (_ =? _)%N = false |- _ => apply N.eqb_neq in H
  | H : (_ <=? _)%N = true |- _ => apply N.leb_le in H
  | H : (_ <=? _)%N = false |- _ => apply N.leb_gt in H
  | H : (_ <? _)%N = true |- _ => apply N.ltb_lt in H
  | H : (_ <? _)%N = false |- _ => apply N.ltb_ge in H
  end.

Section SplitFacts.

Variable sep : char.

Lemma split_aux_no_sep (cur s : str) :
  sep ∉ s -> split_aux sep cur s = [rev cur ++ s].
Proof.
  revert cur. induction s as [|c r IH]; intros cur Hs; simpl.
  - by rewrite app_nil_r.
  - apply not_elem_of_cons in Hs as [Hc Hr].
    destruct (N.eqb_spec c sep) as [->|_]; [done|].
    rewrite IH by done. simpl. by rewrite <- app_assoc.
Qed.

Lemma split_aux_app (cur a b : str) :
  sep ∉ a ->
  split_aux sep cur (a ++ sep :: b) = (rev cur ++ a) :: split_aux sep [] b.
Proof.
  revert cur. induction a as [|c r IH]; intros cur Ha; simpl.
  - rewrite N.eqb_refl. by rewrite app_nil_r.
  - apply not_elem_of_cons in Ha as [Hc Hr].
    destruct (N.eqb_spec c sep) as [->|_]; [done|].
    rewrite IH by done. simpl. by rewrite <- app_assoc.
Qed.

(** Exactly one separator: two parts. *)
Lemma split_once (a b : str) :
  sep ∉ a -> sep ∉ b -> split sep (a ++ sep :: b) = [a; b].
Proof.
  intros Ha Hb. unfold split.
  rewrite split_aux_app by done. by rewrite split_aux_no_sep.
Qed.

(** The number of parts is one more than the number of separators. *)
Lemma length_split_aux (cur s : str) :
  length (split_aux sep cur s) = S (count_occ N.eq_dec s sep).
Proof.
  revert cur. induction s as [|c r IH]; intros cur; simpl; [done|].
  destruct (N.eqb_spec c sep) as [->|Hne].
  - destruct (N.eq_dec sep sep); [|done]. simpl. by rewrite IH.
  - destruct (N.eq_dec c sep); [done|]. apply IH.
Qed.

Lemma length_split (s : str) :
  length (split sep s) = S (count_occ N.eq_dec s sep).
Proof. apply length_split_aux. Qed.

End SplitFacts.

Lemma lstrip_spaces (ws s : str) : all_space ws -> lstrip (ws ++ s) = lstrip s.
Proof.
  induction 1 as [|c ws Hc _ IH]; simpl; [done|]. by rewrite Hc.
Qed.

Lemma lstrip_all_space (ws : str) : all_space ws -> lstrip ws = [].
Proof.
  intros H. rewrite <- (app_nil_r ws). by rewrite lstrip_spaces.
Qed.

Lemma lstrip_app (s t : str) :
  lstrip (s ++ t) = if forallb isspace s then lstrip t else lstrip s ++ t.
Proof.
  induction s as [|c r IH]; simpl; [done|].
  destruct (isspace c); simpl; [apply IH|done].
Qed.

Lemma all_space_rev (ws : str) : all_space ws -> all_space (rev ws).
Proof. apply List.Forall_rev. Qed.

(** White space around a text does not change what [strip] returns. *)
Lemma strip_pad (ws1 ws2 s : str) :
  all_space ws1 -> all_space ws2 -> strip (ws1 ++ s ++ ws2) = strip s.
Proof.
  intros H1 H2. unfold strip. rewrite lstrip_spaces by done.
  rewrite lstrip_app. destruct (forallb isspace s) eqn:Hs.
  - rewrite (lstrip_all_space ws2) by done.
    rewrite (lstrip_all_space s); [done|].
    by apply List.Forall_forall, forallb_forall.
  - rewrite rev_app_distr. rewrite lstrip_spaces; [done|].
    by apply all_space_rev.
Qed.

(** *** [int] and [strip]

    [int] skips ASCII white space by itself, [strip] removes every Unicode
    white space: a text that [int] accepts is accepted, with the same
    value, after [strip]. *)
Section IntFacts.

Variable unicode_zeros : list N.
Variable int_max_str_digits : nat.

#[local] Abbreviation lfs := (long_from_string int_max_str_digits).
#[local] Abbreviation to_ascii := (Py.to_ascii unicode_zeros).
#[local] Abbreviation int := (Py.int unicode_zeros int_max_str_digits).

(** White space is transformed to a character below the digits, the signs
    and the underscore. *)
Lemma to_ascii_space (c : char) : isspace c = true -> (to_ascii c <= 32)%N.
Proof.
  intros Hc. unfold Py.to_ascii.
  destruct (N.ltb_spec c 127).
  - unfold isspace in Hc. nprop; lia.
  - rewrite Hc. unfold SPACE. lia.
Qed.

Lemma scan_snoc (c' : char) (d : str) :
  (c' <= 32)%N ->
  forall prev acc n,
    scan prev acc n (d ++ [c']) =
    match scan prev acc n d with
    | Some (v, k, rest) => Some (v, k, rest ++ [c'])
    | None => None
    end.
Proof.
  intros Hc.
  assert (Hd : isdigit c' = false).
  { unfold isdigit. apply andb_false_iff. left. apply N.leb_gt. lia. }
  assert (Hu : (c' =? UNDERSCORE)%N = false).
  { apply N.eqb_neq. unfold UNDERSCORE. lia. }
  induction d as [|c d IH]; intros prev acc n; simpl.
  - rewrite Hd, Hu. by destruct prev.
  - destruct (isdigit c); [apply IH|].
    destruct (c =? UNDERSCORE)%N; destruct prev; done.
Qed.

Lemma skip_space_all (t : str) :
  forallb isspace_ascii t = true -> skip_space t = [].
Proof.
  induction t as [|c t IH]; simpl; [done|].
  destruct (isspace_ascii c); simpl; [apply IH|done].
Qed.

Lemma skip_space_snoc (c' : char) (t : str) :
  skip_space (t ++ [c']) =
  if forallb isspace_ascii t then skip_space [c'] else skip_space t ++ [c'].
Proof.
  induction t as [|c t IH]; [done|].
  cbn [app skip_space forallb]. destruct (isspace_ascii c); simpl; [apply IH|done].
Qed.

Lemma skip_space_not_all (t : str) :
  forallb isspace_ascii t = false -> skip_space t <> [].
Proof.
  induction t as [|c t IH]; simpl; [done|].
  destruct (isspace_ascii c); simpl; [apply IH|done].
Qed.

Lemma read_sign_low (c' : char) (t : str) :
  (c' <= 32)%N -> read_sign (c' :: t) = (1%Z, c' :: t).
Proof.
  intros Hc. unfold read_sign.
  destruct (N.eqb_spec c' PLUS) as [->|_]; [unfold PLUS in Hc; lia|].
  destruct (N.eqb_spec c' MINUS) as [->|_]; [unfold MINUS in Hc; lia|done].
Qed.

Lemma read_sign_snoc (c' : char) (s : str) :
  s <> [] ->
  read_sign (s ++ [c']) = let '(sign, d) := read_sign s in (sign, d ++ [c']).
Proof.
  destruct s as [|c s]; [done|]. intros _. cbn [app read_sign].
  destruct (c =? PLUS)%N; [done|]. by destruct (c =? MINUS)%N.
Qed.

(** No digits start with a low character. *)
Lemma read_digits_low_head (sign : Z) (c' : char) (t : str) :
  (c' <= 32)%N -> read_digits int_max_str_digits sign (c' :: t) = Raise ValueError.
Proof.
  intros Hc. unfold read_digits. cbn [starts_with_underscore scan].
  assert (Hu : (c' =? UNDERSCORE)%N = false)
    by (apply N.eqb_neq; unfold UNDERSCORE; lia).
  assert (Hd : isdigit c' = false).
  { unfold isdigit. apply andb_false_iff. left. apply N.leb_gt. lia. }
  by rewrite Hu, Hd.
Qed.

Lemma read_digits_snoc (sign : Z) (c' : char) (d : str) (x : Z) :
  (c' <= 32)%N ->
  read_digits int_max_str_digits sign (d ++ [c']) = Ok x ->
  read_digits int_max_str_digits sign d = Ok x.
Proof.
  intros Hc. destruct d as [|c d].
  { cbn [app]. by rewrite read_digits_low_head. }
  unfold read_digits. cbn [app starts_with_underscore].
  destruct (c =? UNDERSCORE)%N; [done|].
  change (c :: d ++ [c']) with ((c :: d) ++ [c']). rewrite scan_snoc by done.
  destruct (scan false 0 0 (c :: d)) as [[[v k] rest]|]; [|done].
  destruct (over_limit int_max_str_digits k); [done|].
  destruct (k =? 0)%nat; [done|].
  rewrite skip_space_snoc. destruct (forallb isspace_ascii rest) eqn:Hr.
  - rewrite (skip_space_all rest Hr). cbn [skip_space].
    by destruct (isspace_ascii c').
  - pose proof (skip_space_not_all rest Hr).
    by destruct (skip_space rest).
Qed.

Lemma lfs_nil : lfs [] = Raise ValueError.
Proof. done. Qed.

(** [int] ignores a low character in front... *)
Lemma lfs_cons (c' : char) (t : str) (x : Z) :
  (c' <= 32)%N -> lfs (c' :: t) = Ok x -> lfs t = Ok x.
Proof.
  intros Hc. unfold long_from_string. cbn [skip_space].
  destruct (isspace_ascii c') eqn:Hs; [done|].
  rewrite read_sign_low by done. by rewrite read_digits_low_head.
Qed.

(** ... and at the end. *)
Lemma lfs_snoc (c' : char) (t : str) (x : Z) :
  (c' <= 32)%N -> lfs (t ++ [c']) = Ok x -> lfs t = Ok x.
Proof.
  intros Hc. unfold long_from_string. rewrite skip_space_snoc.
  destruct (forallb isspace_ascii t) eqn:Ht.
  - cbn [skip_space]. destruct (isspace_ascii c'); [done|].
    rewrite read_sign_low by done. by rewrite read_digits_low_head.
  - rewrite read_sign_snoc by by apply skip_space_not_all.
    destruct (read_sign (skip_space t)) as [sign d].
    by apply read_digits_snoc.
Qed.

Lemma int_lstrip (s : str) (x : Z) : int s = Ok x -> int (lstrip s) = Ok x.
Proof.
  unfold Py.int. induction s as [|c s IH]; [done|].
  cbn [map lstrip]. destruct (isspace c) eqn:Hc; [|done].
  intros H. apply IH. by eapply lfs_cons, H; apply to_ascii_space.
Qed.

Lemma int_rstrip (s : str) (x : Z) :
  int s = Ok x -> int (rev (lstrip (rev s))) = Ok x.
Proof.
  unfold Py.int. induction s as [|c s IH] using rev_ind; [done|].
  rewrite rev_unit. cbn [lstrip]. destruct (isspace c) eqn:Hc.
  - rewrite map_app. cbn [map]. intros H. apply IH.
    by eapply lfs_snoc, H; apply to_ascii_space.
  - cbn [rev]. by rewrite rev_involutive.
Qed.

(** What [int] accepts, it accepts with the same value after [strip]. *)
Lemma int_strip (s : str) (x : Z) : int s = Ok x -> int (strip s) = Ok x.
Proof. intros H. unfold strip. by apply int_rstrip, int_lstrip. Qed.

Lemma int_strip_pad (ws1 ws2 s : str) (x : Z) :
  all_space ws1 -> all_space ws2 ->
  int s = Ok x -> int (strip (ws1 ++ s ++ ws2)) = Ok x.
Proof. intros H1 H2 H. rewrite strip_pad by done. by apply int_strip. Qed.

End IntFacts.

(* ===================================================================== *)
(** ** The reporter: parsing and flagging *)
(* ===================================================================== *)

Section ReportFacts.

Variable unicode_zeros : list N.
Variable int_max_str_digits : nat.

#[local] Abbreviation int := (Py.int unicode_zeros int_max_str_digits).
#[local] Abbreviation parse_body := (parse_pair_body unicode_zeros int_max_str_digits).
#[local] Abbreviation parse := (_parse_pair unicode_zeros int_max_str_digits).
#[local] Abbreviation flag := (is_flagged unicode_zeros int_max_str_digits).
#[local] Abbreviation flagged := (flagged_of unicode_zeros int_max_str_digits).

Lemma all_space_no_slash (ws : str) : all_space ws -> SLASH ∉ ws.
Proof.
  intros H Hin. unfold all_space in H. rewrite List.Forall_forall in H.
  apply list_elem_of_In in Hin. by apply H in Hin.
Qed.

(** With exactly one separator the two sides go through [strip] and [int]. *)
Lemma parse_body_one_slash (a b : str) :
  SLASH ∉ a -> SLASH ∉ b ->
  parse_body (a ++ SLASH :: b) =
  (c ← int (strip a); l ← int (strip b); Ok (c, l)).
Proof.
  intros Ha Hb. unfold parse_pair_body. by rewrite split_once.
Qed.

(** With no separator, or more than one, the unpacking fails. *)
Lemma parse_body_not_one_slash (s : str) :
  count_occ N.eq_dec s SLASH <> 1 -> parse_body s = Raise ValueError.
Proof.
  intros Hn. unfold parse_pair_body.
  pose proof (length_split SLASH s) as Hl.
  destruct (split SLASH s) as [|x [|y [|z l]]]; simpl in Hl; try done.
  by injection Hl as Hl.
Qed.

Lemma parse_padded (a b ws1 ws2 : str) (x y : Z) :
  SLASH ∉ a -> SLASH ∉ b -> all_space ws1 -> all_space ws2 ->
  int a = Ok x -> int b = Ok y ->
  parse (a ++ ws1 ++ [SLASH] ++ ws2 ++ b) = (x, y).
Proof.
  intros Ha Hb H1 H2 Hx Hy. unfold _parse_pair.
  replace (a ++ ws1 ++ [SLASH] ++ ws2 ++ b)
    with ((a ++ ws1) ++ SLASH :: (ws2 ++ b)) by by rewrite <- app_assoc.
  rewrite parse_body_one_slash.
  - rewrite <- (app_nil_l (a ++ ws1)), <- (app_nil_r (ws2 ++ b)), <- app_assoc.
    rewrite (int_strip_pad _ _ [] ws1 a x), (int_strip_pad _ _ ws2 [] b y);
      by try constructor.
  - apply not_elem_of_app. split; [done|by apply all_space_no_slash].
  - apply not_elem_of_app. split; [by apply all_space_no_slash|done].
Qed.

Lemma parse_failure (s : str) (e : exn) :
  parse_body s = Raise e -> parse s = (0, 0)%Z.
Proof. intros H. unfold _parse_pair. by rewrite H. Qed.

Lemma is_flagged_spec (c : CourseInfo) :
  flag c = true <->
  (fst (parse (enrolled c)) <= 10)%Z \/ (0 < fst (parse (wait_list c)))%Z.
Proof.
  unfold is_flagged.
  destruct (parse (enrolled c)) as [ec el], (parse (wait_list c)) as [wc wl].
  simpl. rewrite orb_true_iff, Z.leb_le, Z.ltb_lt. done.
Qed.

(** The loop that fills [flagged] is a filter. *)
Lemma flagged_of_acc (courses acc : list CourseInfo) :
  fold_left (fun fl c => if flag c then fl ++ [c] else fl) courses acc
  = acc ++ List.filter flag courses.
Proof.
  revert acc. induction courses as [|c cs IH]; intros acc; simpl.
  - by rewrite app_nil_r.
  - rewrite IH. destruct (flag c); [|done]. by rewrite <- app_assoc.
Qed.

Lemma flagged_of_filter (courses : list CourseInfo) :
  flagged courses = List.filter flag courses.
Proof. apply flagged_of_acc. Qed.

Lemma elem_of_flagged (courses : list CourseInfo) (c : CourseInfo) :
  c ∈ flagged courses <-> c ∈ courses /\ flag c = true.
Proof.
  rewrite flagged_of_filter, !list_elem_of_In. apply filter_In.
Qed.

Lemma filter_sublist (f : CourseInfo -> bool) (l : list CourseInfo) :
  List.filter f l `sublist_of` l.
Proof.
  induction l as [|c l IH]; simpl; [constructor|].
  destruct (f c); by constructor.
Qed.

(** C1. A record is flagged exactly when the current enrollment parsed from
    [enrolled] is at most 10 or the current count parsed from [wait_list]
    is positive.  Parsing [a / b], with any white space around the
    separator, gives [(int(a), int(b))]; every failure of the parse gives
    [(0, 0)]; and the three examples of the specification evaluate as
    stated. *)
Theorem flagged_iff_parse :
  (forall (courses : list CourseInfo) (c : CourseInfo),
      c ∈ flagged courses <->
      c ∈ courses /\
      ((fst (parse (enrolled c)) <= 10)%Z \/ (0 < fst (parse (wait_list c)))%Z))
  /\ (forall (a b ws1 ws2 : str) (x y : Z),
         SLASH ∉ a -> SLASH ∉ b -> all_space ws1 -> all_space ws2 ->
         int a = Ok x -> int b = Ok y ->
         parse (a ++ ws1 ++ [SLASH] ++ ws2 ++ b) = (x, y))
  /\ (forall (s : str) (e : exn), parse_body s = Raise e -> parse s = (0, 0)%Z)
  /\ parse (u "9 / 25") = (9, 25)%Z
  /\ parse (u "bad") = (0, 0)%Z
  /\ parse (u "0/46") = (0, 46)%Z.
Proof.
  split; [|split; [|split; [|split; [|split]]]].
  - intros courses c. rewrite elem_of_flagged, is_flagged_spec. done.
  - apply parse_padded.
  - apply parse_failure.
  - vm_compute. reflexivity.
  - vm_compute. reflexivity.
  - vm_compute. reflexivity.
Qed.

(** C10. [_parse_pair] is total: whatever the [try] body does, a pair
    comes back, and it is [(0, 0)] whenever the body raises.  A text with
    no separator or with more than one raises, the empty text included; a
    negative number parses. *)
Theorem parse_pair_total :
  (forall s : str,
      (exists p, parse_body s = Ok p /\ parse s = p)
      \/ (exists e, parse_body s = Raise e /\ parse s = (0, 0)%Z))
  /\ (forall s : str, count_occ N.eq_dec s SLASH <> 1 -> parse s = (0, 0)%Z)
  /\ parse (u "1/2/3") = (0, 0)%Z
  /\ parse [] = (0, 0)%Z
  /\ parse (u "abc") = (0, 0)%Z
  /\ parse (u "-3 / 25") = (-3, 25)%Z.
Proof.
  split; [|split; [|split; [|split; [|split]]]].
  - intros s. unfold _parse_pair. destruct (parse_body s) as [p|e]; eauto.
  - intros s Hs. eapply parse_failure. by apply parse_body_not_one_slash.
  - vm_compute. reflexivity.
  - vm_compute. reflexivity.
  - vm_compute. reflexivity.
  - vm_compute. reflexivity.
Qed.

(** An enrollment that does not parse counts as zero students, which is
    at most ten: the record is flagged. *)
Lemma unparseable_enrollment_flagged (c : CourseInfo) (e : exn) :
  parse_body (enrolled c) = Raise e -> flag c = true.
Proof.
  intros H. apply is_flagged_spec. left.
  by rewrite (parse_failure _ _ H).
Qed.

(** C2.  The record with two unparseable counts: both pairs default to
    [(0, 0)], the record is in the flagged list, and it is printed twice,
    in the main table and under the label of the flagged section. *)
Theorem unparseable_record_is_flagged :
  parse (enrolled unparseable) = (0, 0)%Z
  /\ parse (wait_list unparseable) = (0, 0)%Z
  /\ flagged [unparseable] = [unparseable]
  /\ print_courses unicode_zeros int_max_str_digits [unparseable] =
       [u "Title     Class       Enrolled  Wait List";
        u "-----------------------------------------";
        u "Capstone  CST 499-01  bad       bad      ";
        flagged_label;
        u "Title     Class       Enrolled  Wait List";
        u "-----------------------------------------";
        u "Capstone  CST 499-01  bad       bad      "].
Proof. repeat split; vm_compute; reflexivity. Qed.

(** C3, as the code has it.  In the scenario of the specification both
    records are flagged: the first for its 9 enrolled students, the second
    for the 3 students on its wait list. *)
Theorem scenario_flags_both :
  flagged [intro_to_cs; data_structures] = [intro_to_cs; data_structures].
Proof. vm_compute. reflexivity. Qed.

(** *** The table *)

Lemma max_of_ge (xs : list nat) (x : nat) :
  x <= max_of x xs /\ forall y, y ∈ xs -> y <= max_of x xs.
Proof.
  unfold max_of. revert x. induction xs as [|z xs IH]; intros x; simpl.
  - split; [done|]. intros y Hy. by apply elem_of_nil in Hy.
  - destruct (IH (Nat.max x z)) as [H1 H2]. split; [lia|].
    intros y Hy. apply elem_of_cons in Hy as [->|Hy]; [lia|by apply H2].
Qed.

Lemma max_of_in (xs : list nat) (x : nat) : max_of x xs ∈ x :: xs.
Proof.
  unfold max_of. revert x. induction xs as [|z xs IH]; intros x; simpl.
  - by left.
  - specialize (IH (Nat.max x z)). apply elem_of_cons in IH as [->|IH].
    + destruct (Nat.max_spec x z) as [[_ ->]|[_ ->]]; [right|]; by left.
    + by do 2 right.
Qed.

Lemma len_ljust (w : nat) (s : str) : len s <= w -> len (ljust w s) = w.
Proof.
  intros H. unfold ljust, len in *. rewrite length_app, repeat_length. lia.
Qed.

(** A column width is the greatest of the lengths of the label and of the
    column's values, and a cell padded to it has exactly that length. *)
Lemma column_width_spec (label : str) (column : CourseInfo -> str)
      (c0 : CourseInfo) (cs : list CourseInfo) :
  let w := column_width label column c0 cs in
  len label <= w
  /\ (forall c, c ∈ c0 :: cs -> len (column c) <= w)
  /\ (w = len label \/ exists c, c ∈ c0 :: cs /\ w = len (column c))
  /\ len (ljust w label) = w
  /\ (forall c, c ∈ c0 :: cs -> len (ljust w (column c)) = w).
Proof.
  intros w. subst w. unfold column_width.
  set (xs := map (fun c => len (column c)) cs).
  destruct (max_of_ge xs (len (column c0))) as [H0 Hxs].
  assert (Hle : forall c, c ∈ c0 :: cs ->
                  len (column c) <= Nat.max (len label) (max_of (len (column c0)) xs)).
  { intros c Hc. apply elem_of_cons in Hc as [->|Hc]; [lia|].
    assert (H : len (column c) ∈ xs).
    { apply list_elem_of_In, (in_map (fun c => len (column c))).
      by apply list_elem_of_In. }
    apply Hxs in H. lia. }
  split; [lia|]. split; [done|]. split; [|split].
  - destruct (Nat.max_spec (len label) (max_of (len (column c0)) xs))
      as [[_ ->]|[_ ->]]; [right|by left].
    pose proof (max_of_in xs (len (column c0))) as Hin.
    apply elem_of_cons in Hin as [->|Hin]; [exists c0; split; [by left|done]|].
    apply list_elem_of_In, in_map_iff in Hin as (c & Heq & Hc).
    exists c. split; [right; by apply list_elem_of_In|by rewrite Heq].
  - apply len_ljust. lia.
  - intros c Hc. apply len_ljust. by apply Hle.
Qed.

(** What [print_courses] prints for a non-empty list. *)
Lemma print_courses_cons (c0 : CourseInfo) (cs : list CourseInfo) :
  print_courses unicode_zeros int_max_str_digits (c0 :: cs) =
  [table_header c0 cs; repeat MINUS (len (table_header c0 cs))]
  ++ map (table_line c0 cs) (c0 :: cs)
  ++ match flagged (c0 :: cs) with
     | [] => []
     | _ :: _ =>
         [flagged_label; table_header c0 cs;
          repeat MINUS (len (table_header c0 cs))]
         ++ map (table_line c0 cs) (flagged (c0 :: cs))
     end.
Proof. reflexivity. Qed.

(** A row laid out by [format_row] for values no longer than the widths:
    every cell has the width of its column. *)
Lemma format_row_printed (w1 w2 w3 w4 : nat) (a b c d : str) :
  len a <= w1 -> len b <= w2 -> len c <= w3 -> len d <= w4 ->
  printed_row w1 w2 w3 w4 a b c d (format_row w1 w2 w3 w4 a b c d).
Proof.
  unfold len. intros Ha Hb Hc Hd.
  exists (w1 - length a), (w2 - length b), (w3 - length c), (w4 - length d).
  split; [|lia]. unfold format_row, ljust, len.
  by rewrite <- !app_assoc.
Qed.

Lemma Forall2_map_lines {A} (P : A -> str -> Prop) (f : A -> str) (l : list A) :
  (forall x, x ∈ l -> P x (f x)) -> Forall2 P l (map f l).
Proof.
  induction l as [|x l IH]; intros H; cbn [map]; constructor.
  - apply H. by left.
  - apply IH. intros y Hy. apply H. by right.
Qed.

(** C4.  For a non-empty list, each of the four widths is the maximum of
    the label's length and the lengths of the column's values.  What is
    printed is a header, a rule of the header's length and one line per
    record, and, when a record is flagged, the label, the same header and
    rule and one line per flagged record; in the header and in every line
    of both tables each cell is the value followed by spaces up to exactly
    the width of its column, the widths being those of the full list. *)
Theorem column_widths_are_maxima (c0 : CourseInfo) (cs : list CourseInfo) :
  (forall (label : str) (column : CourseInfo -> str),
      let w := column_width label column c0 cs in
      len label <= w
      /\ (forall c, c ∈ c0 :: cs -> len (column c) <= w)
      /\ (w = len label \/ exists c, c ∈ c0 :: cs /\ w = len (column c))
      /\ len (ljust w label) = w
      /\ (forall c, c ∈ c0 :: cs -> len (ljust w (column c)) = w))
  /\ (exists (header : str) (lines flagged_lines : list str),
        print_courses unicode_zeros int_max_str_digits (c0 :: cs) =
          [header; repeat MINUS (length header)] ++ lines
          ++ match flagged (c0 :: cs) with
             | [] => []
             | _ :: _ =>
                 [flagged_label; header; repeat MINUS (length header)]
                 ++ flagged_lines
             end
        /\ printed_row (column_width (u "Title") title c0 cs)
                       (column_width (u "Class") class_code c0 cs)
                       (column_width (u "Enrolled") enrolled c0 cs)
                       (column_width (u "Wait List") wait_list c0 cs)
                       (u "Title") (u "Class") (u "Enrolled") (u "Wait List")
                       header
        /\ Forall2 (fun c line =>
                      printed_row (column_width (u "Title") title c0 cs)
                                  (column_width (u "Class") class_code c0 cs)
                                  (column_width (u "Enrolled") enrolled c0 cs)
                                  (column_width (u "Wait List") wait_list c0 cs)
                                  (title c) (class_code c)
                                  (enrolled c) (wait_list c) line)
                   (c0 :: cs) lines
        /\ Forall2 (fun c line =>
                      printed_row (column_width (u "Title") title c0 cs)
                                  (column_width (u "Class") class_code c0 cs)
                                  (column_width (u "Enrolled") enrolled c0 cs)
                                  (column_width (u "Wait List") wait_list c0 cs)
                                  (title c) (class_code c)
                                  (enrolled c) (wait_list c) line)
                   (flagged (c0 :: cs)) flagged_lines)
  /\ (forall c, c ∈ flagged (c0 :: cs) -> c ∈ c0 :: cs).
Proof.
  destruct (column_width_spec (u "Title") title c0 cs) as (Ht & Htc & _).
  destruct (column_width_spec (u "Class") class_code c0 cs) as (Hc & Hcc & _).
  destruct (column_width_spec (u "Enrolled") enrolled c0 cs) as (He & Hec & _).
  destruct (column_width_spec (u "Wait List") wait_list c0 cs)
    as (Hw & Hwc & _).
  assert (Hsub : forall c, c ∈ flagged (c0 :: cs) -> c ∈ c0 :: cs).
  { intros c Hin. by apply elem_of_flagged in Hin as [Hin _]. }
  split; [|split; [|done]].
  - intros label column. apply column_width_spec.
  - exists (table_header c0 cs), (map (table_line c0 cs) (c0 :: cs)),
      (map (table_line c0 cs) (flagged (c0 :: cs))).
    split; [apply print_courses_cons|]. split; [|split].
    + by apply format_row_printed.
    + apply Forall2_map_lines. intros c Hin. apply format_row_printed; auto.
    + apply Forall2_map_lines. intros c Hin. apply format_row_printed; auto.
Qed.

(** The flagged line of the short title is as wide as the long title of
    the record that is not flagged. *)
Example flagged_table_keeps_full_widths :
  print_courses unicode_zeros int_max_str_digits [operating_systems; ethics] =
  [u "Title                         Class       Enrolled  Wait List";
   u "-------------------------------------------------------------";
   u "Operating Systems Principles  CST 333-01  25 / 30   0 / 10   ";
   u "Ethics                        CST 101-01  9 / 25    0 / 0    ";
   flagged_label;
   u "Title                         Class       Enrolled  Wait List";
   u "-------------------------------------------------------------";
   u "Ethics                        CST 101-01  9 / 25    0 / 0    "].
Proof. vm_compute. reflexivity. Qed.

(** C9.  The flagged list is the filter of the input by the flag
    condition: a sublist in the order of the input, holding exactly the
    flagged records; and the flagged section prints these records with the
    line format of the main table. *)
Theorem flagged_is_ordered_filter :
  (forall courses : list CourseInfo,
      flagged courses = List.filter flag courses
      /\ flagged courses `sublist_of` courses
      /\ (forall c, c ∈ flagged courses <-> c ∈ courses /\ flag c = true))
  /\ (forall (c0 : CourseInfo) (cs : list CourseInfo),
         print_courses unicode_zeros int_max_str_digits (c0 :: cs) =
         ([table_header c0 cs; repeat MINUS (len (table_header c0 cs))]
          ++ map (table_line c0 cs) (c0 :: cs))
         ++ match List.filter flag (c0 :: cs) with
            | [] => []
            | _ :: _ =>
                [flagged_label; table_header c0 cs;
                 repeat MINUS (len (table_header c0 cs))]
                ++ map (table_line c0 cs) (List.filter flag (c0 :: cs))
            end).
Proof.
  split.
  - intros courses. split; [apply flagged_of_filter|]. split.
    + rewrite flagged_of_filter. apply filter_sublist.
    + apply elem_of_flagged.
  - intros c0 cs.
    rewrite print_courses_cons, <- flagged_of_filter.
    by rewrite <- app_assoc.
Qed.

End ReportFacts.

(** The first example of the specification, from its two numbers and the
    white space around the separator. *)
Lemma nine_of_25 :
  _parse_pair unicode_14_zeros default_max_str_digits
              (u "9" ++ u " " ++ [SLASH] ++ u " " ++ u "25") = (9, 25)%Z.
Proof.
  apply (proj1 (proj2 (flagged_iff_parse unicode_14_zeros
                                         default_max_str_digits))).
  - intros H. apply list_elem_of_In in H. destruct H as [H|[]]. discriminate H.
  - intros H. apply list_elem_of_In in H.
    destruct H as [H|[H|[]]]; discriminate H.
  - repeat constructor.
  - repeat constructor.
  - reflexivity.
  - reflexivity.
Defined.

(** A date is not a pair: two separators. *)
Lemma two_separators :
  _parse_pair unicode_14_zeros default_max_str_digits (u "1/2/3") = (0, 0)%Z.
Proof.
  apply (proj1 (proj2 (parse_pair_total unicode_14_zeros
                                        default_max_str_digits))).
  vm_compute. intros H. discriminate H.
Defined.

(** The short title of the flagged record is padded to the width of the
    long one. *)
Lemma ethics_title_cell :
  len (ljust (column_width (u "Title") title operating_systems [ethics])
             (title ethics))
  = column_width (u "Title") title operating_systems [ethics]
  /\ column_width (u "Title") title operating_systems [ethics] = 28.
Proof.
  split; [|reflexivity].
  destruct (column_widths_are_maxima unicode_14_zeros default_max_str_digits
              operating_systems [ethics]) as (H & _).
  destruct (H (u "Title") title) as (_ & _ & _ & _ & Hcell).
  apply Hcell. right. left.
Defined.

(** C3, as the specification words it: the flagged list of the scenario is
    not the first record alone. *)
Lemma scenario_not_first_only :
  flagged_of unicode_14_zeros default_max_str_digits
             [intro_to_cs; data_structures] <> [intro_to_cs].
Proof. vm_compute. intros H. discriminate H. Qed.

(* ===================================================================== *)
(** ** The extractor and the browser session *)
(* ===================================================================== *)

Section CollectFacts.

Import Selenium.

Lemma extract_acc (boxes : list WebElement) (acc : list CourseInfo) :
  fold_left (fun courses box =>
               match read_box box with
               | Ok c => courses ++ [c]
               | Raise _ => courses
               end) boxes acc
  = acc ++ extract boxes.
Proof.
  unfold extract. revert acc.
  induction boxes as [|b boxes IH]; intros acc; simpl.
  - by rewrite app_nil_r.
  - destruct (read_box b) as [c|e]; [|apply IH].
    rewrite (IH (acc ++ [c])), (IH [c]). by rewrite <- app_assoc.
Qed.

Lemma extract_cons (box : WebElement) (boxes : list WebElement) :
  extract (box :: boxes) =
  match read_box box with
  | Ok c => c :: extract boxes
  | Raise _ => extract boxes
  end.
Proof.
  unfold extract at 1. simpl. rewrite extract_acc. by destruct (read_box box).
Qed.

Lemma extract_app (b1 b2 : list WebElement) :
  extract (b1 ++ b2) = extract b1 ++ extract b2.
Proof.
  induction b1 as [|b b1 IH]; [done|].
  cbn [app]. rewrite !extract_cons, IH. by destruct (read_box b).
Qed.

(** One failing sub-field makes the whole [try] body fail. *)
Lemma read_box_raises (box : WebElement) (sel : str) (e : exn) :
  sel ∈ sub_field_locators -> find_text box sel = Raise e ->
  exists e', read_box box = Raise e'.
Proof.
  intros Hsel He. unfold read_box.
  repeat (apply elem_of_cons in Hsel as [->|Hsel];
          [rewrite ?He; simpl;
           repeat match goal with
                  | |- context [find_text box ?l] =>
                      destruct (find_text box l); simpl; eauto
                  end; eauto|]).
  by apply elem_of_nil in Hsel.
Qed.

(** A record is built from four texts that were all read, stripped. *)
Lemma read_box_ok (box : WebElement) (c : CourseInfo) :
  read_box box = Ok c ->
  exists t1 t2 t3 t4,
    find_text box (u "div.courseName") = Ok t1
    /\ find_text box (u "#classID .dataValue") = Ok t2
    /\ find_text box (u "#enrollID .dataValue") = Ok t3
    /\ find_text box (u "#waitID .dataValue") = Ok t4
    /\ c = MkCourseInfo (strip t1) (strip t2) (strip t3) (strip t4).
Proof.
  unfold read_box.
  destruct (find_text box (u "div.courseName")) as [t1|]; [|done].
  destruct (find_text box (u "#classID .dataValue")) as [t2|]; [|done].
  destruct (find_text box (u "#enrollID .dataValue")) as [t3|]; [|done].
  destruct (find_text box (u "#waitID .dataValue")) as [t4|]; [|done].
  simpl. intros [= <-]. by exists t1, t2, t3, t4.
Qed.

Lemma elem_of_extract (boxes : list WebElement) (c : CourseInfo) :
  c ∈ extract boxes <-> exists box, box ∈ boxes /\ read_box box = Ok c.
Proof.
  induction boxes as [|b boxes IH].
  - split; [intros H; by apply elem_of_nil in H|].
    intros (box & H & _). by apply elem_of_nil in H.
  - rewrite extract_cons. split.
    + destruct (read_box b) as [c'|e] eqn:Hb.
      * intros [->|H]%elem_of_cons; [exists b; split; [by left|done]|].
        apply IH in H as (box & ? & ?). exists box. split; [by right|done].
      * intros H. apply IH in H as (box & ? & ?).
        exists box. split; [by right|done].
    + intros (box & [->|H]%elem_of_cons & Hc).
      * rewrite Hc. by left.
      * assert (c ∈ extract boxes) by (apply IH; eauto).
        destruct (read_box b); [by right|done].
Qed.

(** When every request succeeds the script returns the extracted list. *)
Lemma collect_courses_ok (browser : Browser) (term_code : str)
      (headless : bool) (log : list command) :
  (forall c, respond browser c = Ok tt) ->
  fst (collect_courses browser term_code headless log) =
  Ok (extract (elements browser CSS_SELECTOR (u "div.courseResultsBox"))).
Proof.
  intros H.
  unfold collect_courses, get_driver, try_finally, call, mbind, M_bind, and_then.
  by rewrite !H.
Qed.

(** C7.  A container with a sub-field that cannot be read contributes
    nothing to the output: the list is the one extracted from the other
    containers, in order, every record of it was built from four texts
    that were all read, and the run itself still returns the list. *)
Theorem failed_container_is_omitted
        (before after : list WebElement) (box : WebElement)
        (sel : str) (e : exn) :
  sel ∈ sub_field_locators ->
  find_text box sel = Raise e ->
  extract (before ++ box :: after) = extract before ++ extract after
  /\ (forall c, c ∈ extract (before ++ box :: after) ->
        exists b t1 t2 t3 t4,
          b ∈ before ++ after
          /\ find_text b (u "div.courseName") = Ok t1
          /\ find_text b (u "#classID .dataValue") = Ok t2
          /\ find_text b (u "#enrollID .dataValue") = Ok t3
          /\ find_text b (u "#waitID .dataValue") = Ok t4
          /\ c = MkCourseInfo (strip t1) (strip t2) (strip t3) (strip t4))
  /\ (forall (browser : Browser) (term_code : str) (headless : bool),
        (forall c, respond browser c = Ok tt) ->
        elements browser CSS_SELECTOR (u "div.courseResultsBox")
        = before ++ box :: after ->
        fst (collect_courses browser term_code headless [])
        = Ok (extract before ++ extract after)).
Proof.
  intros Hsel He.
  destruct (read_box_raises box sel e Hsel He) as [e' Hbox].
  assert (Hskip : extract (before ++ box :: after)
                  = extract before ++ extract after).
  { by rewrite extract_app, extract_cons, Hbox. }
  split; [done|]. split.
  - intros c Hc. rewrite Hskip, <- extract_app in Hc.
    apply elem_of_extract in Hc as (b & Hb & Hc).
    apply read_box_ok in Hc as (t1 & t2 & t3 & t4 & ?).
    by exists b, t1, t2, t3, t4.
  - intros browser term_code headless Hok Hel.
    by rewrite collect_courses_ok, Hel, Hskip.
Qed.

(** *** The session is released *)

Section Session.

Variable browser : Browser.

Lemma quiet_pure {A} (a : A) : quiet (pure a).
Proof. intros log. exists []. split; [by rewrite app_nil_r|apply not_elem_of_nil]. Qed.

Lemma quiet_call (c : command) : c <> Quit -> quiet (call browser c).
Proof.
  intros Hc log. exists [c]. split; [done|].
  intros H. apply list_elem_of_singleton in H. done.
Qed.

Lemma quiet_bind {A B} (m : M A) (k : A -> M B) :
  quiet m -> (forall a, quiet (k a)) -> quiet (m ≫= k).
Proof.
  intros Hm Hk log. unfold mbind, M_bind, and_then.
  destruct (Hm log) as (l1 & H1 & Hq1).
  destruct (m log) as [[a|e] log1]; simpl in H1; subst log1.
  - destruct (Hk a (log ++ l1)) as (l2 & H2 & Hq2).
    exists (l1 ++ l2). rewrite H2, <- app_assoc. split; [done|].
    by apply not_elem_of_app.
  - by exists l1.
Qed.

(** Whatever the body does, [finally] makes the request to quit once,
    after everything else. *)
Lemma try_finally_quit {A} (body : M A) (log : list command) :
  snd (try_finally body (call browser Quit) log) = snd (body log) ++ [Quit].
Proof.
  unfold try_finally, call. destruct (body log) as [r log1]. simpl.
  by destruct (respond browser Quit).
Qed.

Lemma bind_ok {A B} (m : M A) (k : A -> M B) (a : A) (log log' : list command) :
  m log = (Ok a, log') -> (m ≫= k) log = k a log'.
Proof. intros H. unfold mbind, M_bind, and_then. by rewrite H. Qed.

Lemma get_driver_ok (headless : bool) (log : list command) :
  respond browser InstallDriver = Ok tt ->
  respond browser (NewSession (chrome_options headless)) = Ok tt ->
  get_driver browser headless log
  = (Ok tt, log ++ [InstallDriver; NewSession (chrome_options headless)]).
Proof.
  intros Hinstall Hsession. unfold get_driver.
  rewrite (bind_ok _ _ tt log (log ++ [InstallDriver]))
    by (unfold call; by rewrite Hinstall).
  unfold call. by rewrite Hsession, <- app_assoc.
Qed.

(** C8.  Once the session is created, the log of [collect_courses] is the
    two launcher requests, then requests of the body among which there is
    no [Quit], then [Quit]: the session is released last, exactly once,
    whether the body returned or raised. *)
Theorem session_always_released (term_code : str) (headless : bool) :
  respond browser InstallDriver = Ok tt ->
  respond browser (NewSession (chrome_options headless)) = Ok tt ->
  exists body_log,
    snd (collect_courses browser term_code headless [])
    = [InstallDriver; NewSession (chrome_options headless)]
      ++ body_log ++ [Quit]
    /\ Quit ∉ body_log.
Proof.
  intros Hinstall Hsession.
  unfold collect_courses.
  rewrite (bind_ok _ _ tt [] _ (get_driver_ok headless [] Hinstall Hsession)).
  rewrite try_finally_quit.
  match goal with
  | |- context [snd (?body ?log)] => assert (Hq : quiet body)
  end.
  { repeat (apply quiet_bind; [by apply quiet_call|intros _]).
    apply quiet_pure. }
  destruct (Hq ([] ++ [InstallDriver; NewSession (chrome_options headless)]))
    as (l & Hl & Hql).
  exists l. split; [|done]. rewrite Hl. by rewrite <- app_assoc.
Qed.

End Session.

End CollectFacts.

(** A page whose first container has no wait-list sub-field: the run
    returns the course of the second container only. *)
Lemma wait_list_missing_omitted :
  extract ([] ++ box_without_wait_list :: [intro_box])
  = extract [] ++ extract [intro_box]
  /\ fst (collect_courses two_box_page (u "202610") true [])
     = Ok (extract [] ++ extract [intro_box])
  /\ extract [] ++ extract [intro_box] =
     [MkCourseInfo (u "Intro to CS") (u "CST 150-01") (u "9 / 25") (u "0 / 0")].
Proof.
  destruct (failed_container_is_omitted [] [intro_box] box_without_wait_list
              (u "#waitID .dataValue") NoSuchElementException)
    as (H1 & _ & H3).
  - do 3 right. by left.
  - reflexivity.
  - split; [exact H1|]. split; [|reflexivity].
    apply H3; reflexivity.
Defined.

(** The results never appear: the wait raises and the session is still
    released. *)
Lemma session_released_after_timeout :
  exists body_log,
    snd (collect_courses stalled_page (u "202610") true [])
    = [Selenium.InstallDriver; Selenium.NewSession (chrome_options true)]
      ++ body_log ++ [Selenium.Quit]
    /\ Selenium.Quit ∉ body_log.
Proof.
  apply (session_always_released stalled_page (u "202610") true);
    reflexivity.
Defined.

(* ===================================================================== *)
(** ** The CSV export *)
(* ===================================================================== *)

Section CsvFacts.

Import Csv.

#[local] Abbreviation ppc := parse_process_char.
#[local] Abbreviation mk := Build_parser.
#[local] Abbreviation R p cur s := (read p (readlines_aux cur s)).

Lemma feed_app (p : parser) (a b : str) :
  feed p (a ++ b) = (q ← feed p a; feed q b).
Proof.
  revert p. induction a as [|c a IH]; intros p; simpl; [done|].
  destruct (ppc p (Ch c)) as [p'|e]; simpl; [apply IH|done].
Qed.

Lemma reading_nil (p : parser) : reading p [] p.
Proof. done. Qed.

Lemma reading_cons (p q q' : parser) (cur : str) (c : char) :
  reading p cur q -> ppc q (Ch c) = Ok q' -> reading p (c :: cur) q'.
Proof.
  unfold reading. intros Hq Hc. cbn [rev]. rewrite feed_app, Hq. simpl.
  by rewrite Hc.
Qed.

(** The end of a line: the record is complete when the automaton is back
    at the start of a record. *)
Lemma read_line (p q q2 : parser) (cur : str) (ls : list str) :
  reading p cur q -> ppc q EOL = Ok q2 ->
  read p (rev cur :: ls) =
  match st q2 with
  | START_RECORD => rows ← read parse_reset ls; Ok (flds q2 :: rows)
  | _ => read q2 ls
  end.
Proof.
  unfold reading. intros Hq H2. cbn [read]. unfold process_line.
  rewrite Hq. simpl. rewrite H2. done.
Qed.

(** How the text is cut into lines. *)
Lemma R_plain (p : parser) (cur : str) (c : char) (r : str) :
  is_newline c = false -> R p cur (c :: r) = R p (c :: cur) r.
Proof.
  unfold is_newline. intros H. apply orb_false_iff in H as [H1 H2].
  cbn [readlines_aux]. by rewrite H1, H2.
Qed.

Lemma R_lf (p : parser) (cur r : str) :
  R p cur (LF :: r) = read p (rev (LF :: cur) :: readlines_aux [] r).
Proof. done. Qed.

Lemma R_cr (p : parser) (cur : str) (c : char) (r : str) :
  c <> LF ->
  R p cur (CR :: c :: r) = read p (rev (CR :: cur) :: readlines_aux [] (c :: r)).
Proof.
  intros Hc. cbn [readlines_aux]. change (CR =? LF)%N with false.
  change (CR =? CR)%N with true. cbv iota.
  by destruct (N.eqb_spec c LF).
Qed.

Lemma R_crlf (p : parser) (cur r : str) :
  R p cur (CR :: LF :: r) = read p (rev (LF :: CR :: cur) :: readlines_aux [] r).
Proof. done. Qed.

(** Inside a quoted field a line end is part of the field. *)
Lemma quoted_line_end (p : parser) (cur f : str) (F : list str) (ls : list str) :
  reading p cur (mk IN_QUOTED_FIELD f F) ->
  read p (rev cur :: ls) = read (mk IN_QUOTED_FIELD f F) ls.
Proof. intros H. by rewrite (read_line _ _ _ _ _ H eq_refl). Qed.

Lemma quoted_char (p : parser) (cur f : str) (F : list str) (c : char) :
  c <> QUOTE ->
  reading p cur (mk IN_QUOTED_FIELD f F) ->
  reading p (c :: cur) (mk IN_QUOTED_FIELD (f ++ [c]) F).
Proof.
  intros Hc H. eapply reading_cons; [done|].
  unfold parse_process_char. cbn [st]. by destruct (N.eqb_spec c QUOTE).
Qed.

Lemma escape_cons (c : char) (s : str) :
  escape (c :: s) =
  if (c =? QUOTE)%N then QUOTE :: QUOTE :: escape s else c :: escape s.
Proof. unfold escape. cbn [flat_map]. by destruct (c =? QUOTE)%N. Qed.

Lemma escape_head_not_lf (c : char) (s rest : str) :
  c <> LF -> exists c' t, escape (c :: s) ++ rest = c' :: t /\ c' <> LF.
Proof.
  intros Hc. rewrite escape_cons. destruct (c =? QUOTE)%N.
  - by exists QUOTE, (QUOTE :: escape s ++ rest).
  - by exists c, (escape s ++ rest).
Qed.

(** The body of a quoted field, up to its closing quote. *)
Lemma quoted_body (n : nat) :
  forall (s : str), length s <= n ->
  forall (p : parser) (cur f : str) (F : list str) (rest : str),
    reading p cur (mk IN_QUOTED_FIELD f F) ->
    exists p' cur',
      reading p' cur' (mk IN_QUOTED_FIELD (f ++ s) F)
      /\ R p cur (escape s ++ QUOTE :: rest) = R p' cur' (QUOTE :: rest).
Proof.
  induction n as [|n IH]; intros s Hn p cur f F rest Hq;
    (destruct s as [|c s]; [exists p, cur; by rewrite app_nil_r|]);
    [simpl in Hn; lia|].
  assert (Hs : length s <= n) by (simpl in Hn; lia).
  replace (f ++ c :: s) with ((f ++ [c]) ++ s) by by rewrite <- app_assoc.
  rewrite escape_cons. destruct (N.eqb_spec c QUOTE) as [->|Hquote].
  { (* a doubled quote *)
    cbn [app]. rewrite !R_plain by done.
    apply (IH s Hs p (QUOTE :: QUOTE :: cur)).
    apply (reading_cons p (mk QUOTE_IN_QUOTED_FIELD f F) _ _ QUOTE); [|done].
    by apply (reading_cons p (mk IN_QUOTED_FIELD f F) _ _ QUOTE). }
  pose proof (quoted_char p cur f F c Hquote Hq) as Hc.
  destruct (N.eqb_spec c LF) as [->|Hlf].
  { cbn [app]. rewrite R_lf, (quoted_line_end _ _ _ _ _ Hc).
    apply (IH s Hs), reading_nil. }
  destruct (N.eqb_spec c CR) as [->|Hcr].
  2:{ cbn [app]. rewrite R_plain.
      - by apply (IH s Hs).
      - unfold is_newline. apply orb_false_iff.
        split; by apply N.eqb_neq. }
  (* a carriage return: the line ends after it, or after the line feed
     that follows *)
  destruct s as [|c2 s].
  { cbn [app escape flat_map]. rewrite R_cr by done.
    rewrite (quoted_line_end _ _ _ _ _ Hc).
    exists (mk IN_QUOTED_FIELD (f ++ [CR]) F), [].
    split; [|done]. rewrite app_nil_r. apply reading_nil. }
  destruct (N.eqb_spec c2 LF) as [->|Hlf2].
  - rewrite escape_cons. change (LF =? QUOTE)%N with false. cbn [app].
    rewrite R_crlf.
    assert (H2 : reading p (LF :: CR :: cur)
                   (mk IN_QUOTED_FIELD ((f ++ [CR]) ++ [LF]) F))
      by by apply quoted_char.
    rewrite (quoted_line_end _ _ _ _ _ H2).
    replace ((f ++ [CR]) ++ LF :: s) with (((f ++ [CR]) ++ [LF]) ++ s)
      by by rewrite <- app_assoc.
    apply (IH s); [simpl in Hs; lia|apply reading_nil].
  - destruct (escape_head_not_lf c2 s (QUOTE :: rest) Hlf2) as (c' & t & Ht & Hc').
    cbn [app]. rewrite Ht, R_cr by done.
    rewrite (quoted_line_end _ _ _ _ _ Hc), <- Ht.
    apply (IH (c2 :: s) Hs), reading_nil.
Qed.

Lemma escape_plain (s : str) : existsb special s = false -> escape s = s.
Proof.
  induction s as [|c s IH]; [done|]. cbn [existsb]. intros H.
  apply orb_false_iff in H as [Hc Hs]. rewrite escape_cons, IH by done.
  unfold special in Hc. nprop. by destruct (N.eqb_spec c QUOTE).
Qed.

(** The characters of a field written without quotes. *)
Lemma plain_body (s : str) :
  existsb special s = false ->
  forall (p : parser) (cur f : str) (F : list str) (rest : str),
    reading p cur (mk IN_FIELD f F) ->
    reading p (rev s ++ cur) (mk IN_FIELD (f ++ s) F)
    /\ R p cur (s ++ rest) = R p (rev s ++ cur) rest.
Proof.
  induction s as [|c s IH]; intros Hs p cur f F rest Hq.
  { by rewrite app_nil_r. }
  cbn [existsb] in Hs. apply orb_false_iff in Hs as [Hc Hs].
  unfold special in Hc. nprop.
  assert (Hnl : is_newline c = false).
  { unfold is_newline. apply orb_false_iff. split; by apply N.eqb_neq. }
  assert (Hc' : reading p (c :: cur) (mk IN_FIELD (f ++ [c]) F)).
  { eapply reading_cons; [done|]. unfold parse_process_char. cbn [st].
    rewrite Hnl. by destruct (N.eqb_spec c COMMA). }
  destruct (IH Hs p (c :: cur) (f ++ [c]) F rest Hc') as [Hr1 Hr2].
  cbn [rev app]. rewrite <- !app_assoc in *. cbn [app] in *.
  rewrite R_plain by done. done.
Qed.

(** One field as the writer wrote it, up to the delimiter [d] after it. *)
Lemma field_read (f : str) (p : parser) (cur : str) (F : list str)
      (d : char) (rest : str) :
  reading p cur (mk START_FIELD [] F) ->
  exists p' cur' q',
    reading p' cur' q' /\ field_done q' f F
    /\ R p cur (field f ++ d :: rest) = R p' cur' (d :: rest).
Proof.
  intros Hq. unfold field. destruct (existsb special f) eqn:Hf.
  - (* quoted *)
    assert (Hopen : reading p (QUOTE :: cur) (mk IN_QUOTED_FIELD [] F))
      by by eapply reading_cons.
    destruct (quoted_body (length f) f (le_n _) p (QUOTE :: cur) [] F
                          (d :: rest) Hopen) as (p' & cur' & H1 & H2).
    exists p', (QUOTE :: cur'), (mk QUOTE_IN_QUOTED_FIELD f F).
    split; [by eapply reading_cons|]. split.
    + unfold field_done. cbn. eauto.
    + cbn [app]. rewrite <- app_assoc. cbn [app].
      rewrite R_plain, H2, R_plain; done.
  - (* not quoted *)
    rewrite escape_plain by done. destruct f as [|c f].
    + exists p, cur, (mk START_FIELD [] F). split; [done|].
      split; [|done]. unfold field_done. cbn. eauto.
    + cbn [existsb] in Hf. apply orb_false_iff in Hf as [Hc Hf].
      unfold special in Hc. nprop.
      assert (Hnl : is_newline c = false).
      { unfold is_newline. apply orb_false_iff. split; by apply N.eqb_neq. }
      assert (Hopen : reading p (c :: cur) (mk IN_FIELD [c] F)).
      { eapply reading_cons; [done|]. unfold parse_process_char, start_field.
        cbn [st]. rewrite Hnl. destruct (N.eqb_spec c QUOTE); [done|].
        by destruct (N.eqb_spec c COMMA). }
      destruct (plain_body f Hf p (c :: cur) [c] F (d :: rest) Hopen)
        as [Hr1 Hr2].
      exists p, (rev f ++ c :: cur), (mk IN_FIELD (c :: f) F).
      split; [done|]. split.
      * unfold field_done. cbn. eauto.
      * cbn [app]. rewrite R_plain by done. done.
Qed.

Lemma field_done_comma (q : parser) (f : str) (F : list str) :
  field_done q f F -> ppc q (Ch COMMA) = Ok (mk START_FIELD [] (F ++ [f])).
Proof.
  destruct q as [s f' F']. unfold field_done. cbn.
  intros (Hf & HF & Hst). subst f' F'.
  by destruct Hst as [[-> ->]|[->| ->]].
Qed.

Lemma field_done_newline (q : parser) (f : str) (F : list str) :
  field_done q f F ->
  exists q1, ppc q (Ch CR) = Ok q1 /\ ppc q1 (Ch LF) = Ok q1
             /\ ppc q1 EOL = Ok (mk START_RECORD [] (F ++ [f])).
Proof.
  destruct q as [s f' F']. unfold field_done. cbn.
  intros (Hf & HF & Hst). subst f' F'.
  exists (mk EAT_CRNL [] (F ++ [f])).
  by destruct Hst as [[-> ->]|[->| ->]].
Qed.

(** The fields of a row, up to the line terminator. *)
Lemma join_read (fs : list str) :
  fs <> [] ->
  forall (p : parser) (cur : str) (F : list str) (rest : str),
    reading p cur (mk START_FIELD [] F) ->
    exists p' cur' q' f0 F0,
      reading p' cur' q' /\ field_done q' f0 F0 /\ F0 ++ [f0] = F ++ fs
      /\ R p cur (join fs ++ CR :: rest) = R p' cur' (CR :: rest).
Proof.
  induction fs as [|f fs IH]; [done|]. intros _ p cur F rest Hq.
  destruct fs as [|f2 fs].
  - destruct (field_read f p cur F CR rest Hq) as (p' & cur' & q' & H1 & H2 & H3).
    by exists p', cur', q', f, F.
  - change (join (f :: f2 :: fs)) with (field f ++ COMMA :: join (f2 :: fs)).
    rewrite <- app_assoc. cbn [app].
    destruct (field_read f p cur F COMMA (join (f2 :: fs) ++ CR :: rest) Hq)
      as (p' & cur' & q' & H1 & H2 & H3).
    rewrite H3, R_plain by done.
    destruct (IH ltac:(done) p' (COMMA :: cur') (F ++ [f]) rest)
      as (p2 & cur2 & q2 & f0 & F0 & H4 & H5 & H6 & H7).
    { eapply reading_cons; [done|]. by apply field_done_comma. }
    exists p2, cur2, q2, f0, F0. rewrite <- app_assoc in H6. done.
Qed.

(** The start of a record is the start of its first field, for a first
    character that is no line end. *)
Lemma read_first_char (p1 p2 : parser) (c : char) (l : str) (ls : list str) :
  ppc p1 (Ch c) = ppc p2 (Ch c) ->
  read p1 ((c :: l) :: ls) = read p2 ((c :: l) :: ls).
Proof.
  intros H. cbn [read]. unfold process_line. cbn [feed]. by rewrite H.
Qed.

Lemma R_first_char (p1 p2 : parser) (c : char) (s : str) :
  ppc p1 (Ch c) = ppc p2 (Ch c) ->
  forall cur, R p1 (cur ++ [c]) s = R p2 (cur ++ [c]) s.
Proof.
  intros H. induction s as [|x s IH]; intros cur.
  - cbn [readlines_aux]. destruct (cur ++ [c]) eqn:E.
    + by destruct cur.
    + rewrite <- E, rev_unit. by apply read_first_char.
  - cbn [readlines_aux]. destruct (x =? LF)%N.
    { cbn [rev]. rewrite rev_unit. by apply read_first_char. }
    destruct (x =? CR)%N; [|apply (IH (x :: cur))].
    destruct s as [|x2 s]; [|destruct (x2 =? LF)%N];
      cbn [rev]; rewrite rev_unit; by apply read_first_char.
Qed.

Lemma field_head (f : str) (t : str) :
  exists c r, field f ++ COMMA :: t = c :: r /\ is_newline c = false.
Proof.
  unfold field. destruct (existsb special f) eqn:Hf.
  - by exists QUOTE, ((escape f ++ [QUOTE]) ++ COMMA :: t).
  - rewrite escape_plain by done. destruct f as [|c f].
    + by exists COMMA, t.
    + exists c, (f ++ COMMA :: t). split; [done|].
      cbn [existsb] in Hf. apply orb_false_iff in Hf as [Hc _].
      unfold special in Hc. nprop. unfold is_newline.
      apply orb_false_iff. split; by apply N.eqb_neq.
Qed.

(** One row of two fields or more is read back as written, and the reader
    goes on with the rest of the file. *)
Lemma row_read (row : list str) (rest : str) :
  2 <= length row ->
  R parse_reset [] (writerow row ++ rest) =
  (rows ← R parse_reset [] rest; Ok (row :: rows)).
Proof.
  intros Hlen. destruct row as [|f1 [|f2 fs]]; [simpl in Hlen; lia..|].
  assert (Hw : writerow (f1 :: f2 :: fs) ++ rest
               = join (f1 :: f2 :: fs) ++ CR :: LF :: rest).
  { unfold writerow. destruct f1; by rewrite <- app_assoc. }
  rewrite Hw.
  assert (Hstart : R parse_reset [] (join (f1 :: f2 :: fs) ++ CR :: LF :: rest)
                   = R (mk START_FIELD [] []) []
                       (join (f1 :: f2 :: fs) ++ CR :: LF :: rest)).
  { change (join (f1 :: f2 :: fs)) with (field f1 ++ COMMA :: join (f2 :: fs)).
    rewrite <- app_assoc. cbn [app].
    destruct (field_head f1 (join (f2 :: fs) ++ CR :: LF :: rest))
      as (c & r & -> & Hc).
    rewrite !R_plain by done.
    apply (R_first_char _ _ c r) with (cur := []).
    unfold parse_process_char. cbn [st parse_reset]. by rewrite Hc. }
  rewrite Hstart.
  destruct (join_read (f1 :: f2 :: fs) ltac:(done) (mk START_FIELD [] []) []
                      [] (LF :: rest) (reading_nil _))
    as (p' & cur' & q' & f0 & F0 & H1 & H2 & H3 & H4).
  rewrite H4, R_crlf.
  destruct (field_done_newline q' f0 F0 H2) as (q1 & Hcr & Hlf & Heol).
  assert (Hline : reading p' (LF :: CR :: cur') q1).
  { eapply reading_cons; [|done]. by eapply reading_cons. }
  rewrite (read_line _ _ _ _ _ Hline Heol). cbn [st flds].
  by rewrite H3.
Qed.

(** The round trip: rows of two fields or more, whatever their
    characters, are read back as they were written. *)
Lemma rows_read (rows : list (list str)) :
  Forall (fun row => 2 <= length row) rows ->
  read_back (concat (map writerow rows)) = Ok rows.
Proof.
  unfold read_back, reader, readlines.
  induction 1 as [|row rows Hrow _ IH]; [done|].
  cbn [map concat]. rewrite row_read by done. by rewrite IH.
Qed.

(** *** The codec *)

Lemma utf8_char_scalar (c : char) :
  scalar c = true -> exists b, utf8_char c = Some b.
Proof.
  unfold scalar, utf8_char. intros H.
  destruct (N.ltb_spec c 0x80); [eauto|].
  destruct (N.ltb_spec c 0x800); [eauto|].
  destruct (N.ltb_spec c 0x10000).
  - destruct (N.leb_spec 0xD800 c); [|eauto].
    destruct (N.leb_spec c 0xDFFF); [|eauto].
    nprop; lia.
  - destruct (N.ltb_spec c 0x110000); [eauto|]. nprop; lia.
Qed.

Ltac ntests :=
  repeat match goal with
         | |- context [(?a <? ?b)%N] => destruct (N.ltb_spec a b); try lia
         | |- context [(?a <=? ?b)%N] => destruct (N.leb_spec a b); try lia
         end.

Lemma utf8_char_some (c : char) (b : bytes) :
  utf8_char c = Some b -> scalar c = true.
Proof.
  destruct (scalar c) eqn:Hs; [done|]. unfold scalar in Hs. nprop.
  - unfold utf8_char. ntests; by cbn [andb].
  - unfold utf8_char. ntests; by cbn [andb].
Qed.

(** Division of a code point into groups of six bits. *)
Ltac sixbits c :=
  let q1 := fresh "q" in let r1 := fresh "r" in
  let q2 := fresh "q" in let r2 := fresh "r" in
  let q3 := fresh "q" in let r3 := fresh "r" in
  replace (c / 4096)%N with (c / 64 / 64)%N
    by (rewrite N.Div0.div_div; reflexivity);
  replace (c / 262144)%N with (c / 64 / 64 / 64)%N
    by (rewrite !N.Div0.div_div; reflexivity);
  pose proof (N.div_mod' c 64);
  pose proof (N.mod_lt c 64 ltac:(lia));
  pose proof (N.div_mod' (c / 64) 64);
  pose proof (N.mod_lt (c / 64) 64 ltac:(lia));
  pose proof (N.div_mod' (c / 64 / 64) 64);
  pose proof (N.mod_lt (c / 64 / 64) 64 ltac:(lia));
  set (r1 := (c mod 64)%N) in *; set (r2 := ((c / 64) mod 64)%N) in *;
  set (r3 := ((c / 64 / 64) mod 64)%N) in *;
  set (q3 := (c / 64 / 64 / 64)%N) in *; set (q2 := (c / 64 / 64)%N) in *;
  set (q1 := (c / 64)%N) in *;
  clearbody r1 r2 r3 q3 q2 q1.

(** The value the decoder computes is the code point. *)
Ltac fixvalue c :=
  repeat match goal with
         | |- context [Ok (?v :: _)] =>
             lazymatch v with
             | c => fail
             | _ => replace v with c by lia
             end
         end.

(** One character, encoded, decodes to itself. *)
Lemma utf8_decode_char (c : char) (b rest : bytes) :
  utf8_char c = Some b ->
  utf8_decode (b ++ rest) = (s ← utf8_decode rest; Ok (c :: s)).
Proof.
  unfold utf8_char.
  destruct (N.ltb_spec c 0x80) as [H1|H1].
  { intros [= <-]. cbn [app utf8_decode].
    destruct (N.ltb_spec c 0x80); [done|lia]. }
  destruct (N.ltb_spec c 0x800) as [H2|H2].
  { intros [= <-]. cbn [app utf8_decode]. unfold continuation.
    sixbits c. ntests. cbn [andb]. fixvalue c. done. }
  destruct (N.ltb_spec c 0x10000) as [H3|H3].
  { destruct ((0xD800 <=? c) && (c <=? 0xDFFF))%N eqn:Hs; [done|].
    intros [= <-]. cbn [app utf8_decode]. unfold continuation. cbv zeta.
    sixbits c. fixvalue c. rewrite Hs. ntests. done. }
  destruct (N.ltb_spec c 0x110000) as [H4|H4]; [|done].
  intros [= <-]. cbn [app utf8_decode]. unfold continuation. cbv zeta.
  sixbits c. fixvalue c. ntests. done.
Qed.

Lemma utf8_round_trip (s : str) (b : bytes) :
  utf8_encode s = Ok b -> utf8_decode b = Ok s.
Proof.
  revert b. induction s as [|c s IH]; intros b; cbn [utf8_encode].
  { by intros [= <-]. }
  destruct (utf8_char c) as [bc|] eqn:Hc; [|done].
  destruct (utf8_encode s) as [bs|e]; [|done]. cbn. intros [= <-].
  rewrite (utf8_decode_char c bc bs Hc), (IH bs eq_refl). done.
Qed.

Lemma utf8_encode_app (s t : str) :
  utf8_encode (s ++ t)
  = (b ← utf8_encode s; b' ← utf8_encode t; Ok (b ++ b')).
Proof.
  induction s as [|c s IH]; cbn [app utf8_encode].
  { by destruct (utf8_encode t). }
  destruct (utf8_char c) as [bc|]; [|done]. rewrite IH.
  destruct (utf8_encode s) as [bs|e]; [|done]. cbn.
  destruct (utf8_encode t) as [bt|e]; [|done]. cbn. by rewrite <- app_assoc.
Qed.

Lemma utf8_encode_scalar (s : str) :
  forallb scalar s = true -> exists b, utf8_encode s = Ok b.
Proof.
  induction s as [|c s IH]; cbn [forallb utf8_encode]; [eauto|].
  intros [Hc Hs]%andb_prop.
  destruct (utf8_char_scalar c Hc) as [bc ->].
  destruct (IH Hs) as [bs ->]. cbn. eauto.
Qed.

(** *** What the file holds *)

Lemma escape_scalar (f : str) :
  forallb scalar (escape f) = forallb scalar f.
Proof.
  induction f as [|c f IH]; [done|]. rewrite escape_cons.
  destruct (N.eqb_spec c QUOTE) as [->|_]; cbn [forallb]; by rewrite IH.
Qed.

Lemma field_scalar (f : str) : forallb scalar (field f) = forallb scalar f.
Proof.
  unfold field. destruct (existsb special f); [|apply escape_scalar].
  cbn [forallb]. rewrite forallb_app, escape_scalar. cbn.
  by rewrite andb_true_r.
Qed.

Lemma join_scalar (row : list str) :
  forallb scalar (join row) = forallb (forallb scalar) row.
Proof.
  induction row as [|f row IH]; [done|]. destruct row as [|f2 row].
  - cbn [join forallb]. by rewrite field_scalar, andb_true_r.
  - change (join (f :: f2 :: row)) with (field f ++ COMMA :: join (f2 :: row)).
    rewrite forallb_app. cbn [forallb] in *. by rewrite field_scalar, IH.
Qed.

(** A row can be encoded exactly when its fields can. *)
Lemma writerow_scalar (row : list str) :
  forallb scalar (writerow row) = forallb (forallb scalar) row.
Proof.
  unfold writerow.
  destruct row as [|[|c f] [|f2 row]]; try done;
    by rewrite forallb_app, join_scalar, andb_true_r.
Qed.

Lemma utf8_encode_ok (s : str) (b : bytes) :
  utf8_encode s = Ok b -> forallb scalar s = true.
Proof.
  revert b. induction s as [|c s IH]; intros b; [done|]. cbn [utf8_encode forallb].
  destruct (utf8_char c) as [bc|] eqn:Hc; [|done].
  destruct (utf8_encode s) as [bs|e]; [|done]. intros _.
  by rewrite (utf8_char_some c bc Hc), (IH bs).
Qed.

Lemma utf8_encode_raises (s : str) (e : exn) :
  utf8_encode s = Raise e -> e = UnicodeEncodeError.
Proof.
  induction s as [|c s IH]; [done|]. cbn [utf8_encode].
  destruct (utf8_char c); [|by intros [= <-]].
  destruct (utf8_encode s) as [bs|e']; [done|]. cbn. intros [= <-]. by apply IH.
Qed.

Lemma encodable_fields (c : CourseInfo) :
  encodable c <-> forallb (forallb scalar) (csv_fields c) = true.
Proof.
  unfold encodable. rewrite forallb_forall, List.Forall_forall. done.
Qed.

(** Rows that were all written are in the file, encoded, one after the
    other. *)
Lemma write_rows_ok (rows : list (list str)) (b : bytes) :
  write_rows rows = (b, None) ->
  utf8_encode (concat (map writerow rows)) = Ok b.
Proof.
  revert b. induction rows as [|row rows IH]; intros b; cbn [write_rows].
  { by intros [= <-]. }
  cbn [map concat]. rewrite utf8_encode_app.
  destruct (utf8_encode (writerow row)) as [br|e]; [|done].
  destruct (write_rows rows) as [bs o]. intros [= <- ->].
  by rewrite (IH bs eq_refl).
Qed.

Lemma write_rows_scalar (rows : list (list str)) :
  Forall (fun row => forallb (forallb scalar) row = true) rows ->
  exists b, write_rows rows = (b, None).
Proof.
  induction 1 as [|row rows Hrow _ [bs IH]]; cbn [write_rows]; [eauto|].
  rewrite <- writerow_scalar in Hrow.
  destruct (utf8_encode_scalar _ Hrow) as [br ->]. rewrite IH. eauto.
Qed.

(** The rows before one that cannot be encoded stay in the file; the
    rows after it are not written. *)
Lemma write_rows_stops (before after : list (list str)) (row : list str)
      (b : bytes) :
  write_rows before = (b, None) ->
  forallb (forallb scalar) row = false ->
  write_rows (before ++ row :: after) = (b, Some UnicodeEncodeError).
Proof.
  intros Hb Hrow. revert b Hb.
  induction before as [|r before IH]; intros b; cbn [app write_rows].
  - intros [= <-]. rewrite <- writerow_scalar in Hrow.
    destruct (utf8_encode (writerow row)) as [br|e] eqn:E.
    + apply utf8_encode_ok in E. congruence.
    + by rewrite (utf8_encode_raises _ _ E).
  - destruct (utf8_encode (writerow r)) as [br|e]; [|done].
    destruct (write_rows before) as [bs o]. intros [= <- ->].
    by rewrite (IH bs eq_refl).
Qed.

(** An export that ends well has written the whole text and printed the
    message. *)
Lemma save_csv_ok (fs : FileSystem) (courses : list CourseInfo) (path : str) :
  outcome (save_csv fs courses path) = Ok tt ->
  exists b,
    save_csv fs courses path
    = {| outcome := Ok tt; file := Some b;
         printed := [u "Saved " ++ str_of_nat (length courses)
                     ++ u " courses to " ++ path] |}
    /\ utf8_encode (csv_text courses) = Ok b.
Proof.
  unfold save_csv, csv_text.
  destruct (open_w fs path) as [[]|e]; [|done].
  destruct (write_rows (csv_header :: map csv_fields courses))
    as [b [e|]] eqn:E;
    destruct (store fs path b) as [[e' n]|]; try done.
  intros _. exists b. split; [done|]. by apply write_rows_ok.
Qed.

(** An export that raises has not printed the message. *)
Lemma save_csv_raises (fs : FileSystem) (courses : list CourseInfo)
      (path : str) (e : exn) :
  outcome (save_csv fs courses path) = Raise e ->
  printed (save_csv fs courses path) = [].
Proof.
  unfold save_csv.
  destruct (open_w fs path) as [[]|e0]; [|done].
  destruct (write_rows (csv_header :: map csv_fields courses)) as [b [e1|]];
    by destruct (store fs path b) as [[e' n]|].
Qed.

Lemma save_csv_encodable (fs : FileSystem) (courses : list CourseInfo)
      (path : str) :
  open_w fs path = Ok tt ->
  (forall data, store fs path data = None) ->
  Forall encodable courses ->
  outcome (save_csv fs courses path) = Ok tt.
Proof.
  intros Hopen Hstore Henc. unfold save_csv. rewrite Hopen.
  destruct (write_rows_scalar (csv_header :: map csv_fields courses))
    as [b ->]; [|by rewrite Hstore].
  constructor; [done|]. apply List.Forall_forall. intros row Hrow.
  apply in_map_iff in Hrow as (c & <- & Hc).
  rewrite List.Forall_forall in Henc. by apply encodable_fields, Henc.
Qed.

(** The bytes of the whole text read back as the header and the records. *)
Lemma file_reads_back (courses : list CourseInfo) (b : bytes) :
  utf8_encode (csv_text courses) = Ok b ->
  read_file b = Ok (csv_header :: map csv_fields courses).
Proof.
  intros Hb. unfold read_file. rewrite (utf8_round_trip _ _ Hb).
  change (read_back (csv_text courses)
          = Ok (csv_header :: map csv_fields courses)).
  unfold csv_text. apply rows_read. constructor; [cbn; lia|].
  apply List.Forall_forall. intros row Hrow.
  apply in_map_iff in Hrow as (c & <- & _). cbn. lia.
Qed.

(** A check by computation that no field holds a comma or a quote. *)
Lemma plain_fields_check (courses : list CourseInfo) :
  forallb (fun c => forallb (fun f => negb (existsb (N.eqb COMMA) f)
                                      && negb (existsb (N.eqb QUOTE) f))
                            (csv_fields c)) courses = true ->
  forall c f, c ∈ courses -> f ∈ csv_fields c -> (COMMA ∉ f) /\ (QUOTE ∉ f).
Proof.
  intros H c f Hc Hf. rewrite forallb_forall in H.
  apply list_elem_of_In, H in Hc. rewrite forallb_forall in Hc.
  apply list_elem_of_In, Hc, andb_prop in Hf as [H1 H2].
  apply negb_true_iff in H1, H2.
  split; intros Hin; apply list_elem_of_In in Hin.
  - assert (existsb (N.eqb COMMA) f = true); [|congruence].
    apply existsb_exists. exists COMMA. split; [done|apply N.eqb_refl].
  - assert (existsb (N.eqb QUOTE) f = true); [|congruence].
    apply existsb_exists. exists QUOTE. split; [done|apply N.eqb_refl].
Qed.

(** C5, as the code has it.  When the path opens, the file system stores
    what is written and every field can be encoded (no lone surrogate),
    [save_csv] ends well: the file is the UTF-8 encoding of the header row
    followed by one row per record, in order, each ended by the line
    terminator; read back, it gives the header and the records' fields
    unchanged when no field holds a comma or a quote; and the message
    reports the number of records. *)
Theorem csv_round_trip (fs : FileSystem) (courses : list CourseInfo)
        (path : str) :
  open_w fs path = Ok tt ->
  (forall data, store fs path data = None) ->
  Forall encodable courses ->
  (forall c f, c ∈ courses -> f ∈ csv_fields c -> (COMMA ∉ f) /\ (QUOTE ∉ f)) ->
  exists b,
    save_csv fs courses path
    = {| outcome := Ok tt; file := Some b;
         printed := [u "Saved " ++ str_of_nat (length courses)
                     ++ u " courses to " ++ path] |}
    /\ utf8_encode (u "Title,Class,Enrolled,Wait List" ++ [CR; LF]
                    ++ concat (map (fun c => writerow (csv_fields c)) courses))
       = Ok b
    /\ read_file b = Ok (csv_header :: map csv_fields courses)
    /\ length (map csv_fields courses) = length courses.
Proof.
  intros Hopen Hstore Henc _.
  destruct (save_csv_ok fs courses path
              (save_csv_encodable _ _ _ Hopen Hstore Henc))
    as (b & Hsave & Hb).
  exists b. split; [done|]. split; [|split].
  - rewrite <- Hb. unfold csv_text. cbn [map concat]. by rewrite map_map.
  - by apply file_reads_back.
  - apply length_map.
Qed.

(** C6.  Nothing to report: [print_courses] prints the notice and nothing
    else; [save_csv] of no record has the header row and its terminator to
    write and raises only what the file system raises: when the path opens
    and the row is stored, it ends well with a file of the header row
    only, which reads back as that one row, and reports 0 courses. *)
Theorem empty_report (unicode_zeros : list N) (int_max_str_digits : nat)
        (fs : FileSystem) (path : str) :
  print_courses unicode_zeros int_max_str_digits [] =
    [u "No courses were found.  Verify the term code and try again."]
  /\ save_csv fs [] path
     = match open_w fs path,
             store fs path (u "Title,Class,Enrolled,Wait List" ++ [CR; LF]) with
       | Ok _, None =>
           {| outcome := Ok tt;
              file := Some (u "Title,Class,Enrolled,Wait List" ++ [CR; LF]);
              printed := [u "Saved 0 courses to " ++ path] |}
       | Ok _, Some (e, n) =>
           {| outcome := Raise e;
              file := Some (take n (u "Title,Class,Enrolled,Wait List"
                                    ++ [CR; LF]));
              printed := [] |}
       | Raise e, _ => {| outcome := Raise e; file := None; printed := [] |}
       end
  /\ read_file (u "Title,Class,Enrolled,Wait List" ++ [CR; LF])
     = Ok [csv_header].
Proof.
  split; [done|]. split; [|done].
  unfold save_csv. destruct (open_w fs path); [|done].
  change (write_rows (csv_header :: map csv_fields []))
    with (u "Title,Class,Enrolled,Wait List" ++ [CR; LF], @None exn).
  cbv beta iota zeta.
  by destruct (store fs path _) as [[e n]|].
Qed.

End CsvFacts.

(** The scenario of the specification, exported and read back. *)
Lemma scenario_round_trip :
  exists b,
    save_csv writable [intro_to_cs; data_structures] (u "courses.csv")
    = {| outcome := Ok tt; file := Some b;
         printed := [u "Saved 2 courses to courses.csv"] |}
    /\ b = u "Title,Class,Enrolled,Wait List" ++ [CR; LF]
           ++ u "Intro to CS,CST 150-01,9 / 25,0 / 0" ++ [CR; LF]
           ++ u "Data Structures,CST 250-01,25 / 25,3 / 5" ++ [CR; LF]
    /\ Csv.read_file b
       = Ok [csv_header; csv_fields intro_to_cs; csv_fields data_structures].
Proof.
  destruct (csv_round_trip writable [intro_to_cs; data_structures]
                           (u "courses.csv"))
    as (b & H1 & H2 & H3 & _).
  - reflexivity.
  - reflexivity.
  - repeat constructor.
  - apply plain_fields_check. reflexivity.
  - exists b. split; [exact H1|]. split; [|exact H3].
    vm_compute in H2. by injection H2 as <-.
Defined.

(** C5, as the specification words it: one record, no comma and no quote
    in any field, but a lone surrogate at the end of its title, on a file
    system that stores everything.  The row cannot be encoded: the export
    raises, the file holds the header row and no row for the record, and
    no count is reported. *)
Lemma surrogate_export_fails :
  save_csv writable [surrogate_title] (u "courses.csv")
  = {| outcome := Raise UnicodeEncodeError;
       file := Some (u "Title,Class,Enrolled,Wait List" ++ [CR; LF]);
       printed := [] |}
  /\ (forall f, f ∈ csv_fields surrogate_title ->
                (COMMA ∉ f) /\ (QUOTE ∉ f)).
Proof.
  split; [vm_compute; reflexivity|].
  intros f Hf. apply (plain_fields_check [surrogate_title] eq_refl surrogate_title);
    [by left|done].
Qed.

(* ===================================================================== *)
(** ** Further properties: the session *)
(* ===================================================================== *)

Section SessionFacts.

Import Selenium.

Variable browser : Browser.

(** X1.  When the driver cannot be installed or the session cannot be
    created, [collect_courses] raises that exception; the log holds the
    launcher steps only: no page is requested and there is nothing to
    quit. *)
Theorem launch_failure_propagates (term_code : str) (headless : bool) (e : exn) :
  respond browser InstallDriver = Raise e
  \/ (respond browser InstallDriver = Ok tt
      /\ respond browser (NewSession (chrome_options headless)) = Raise e) ->
  fst (collect_courses browser term_code headless []) = Raise e
  /\ (snd (collect_courses browser term_code headless []) = [InstallDriver]
      \/ snd (collect_courses browser term_code headless [])
         = [InstallDriver; NewSession (chrome_options headless)])
  /\ Quit ∉ snd (collect_courses browser term_code headless []).
Proof.
  unfold collect_courses, get_driver, mbind, M_bind, and_then, call.
  intros [H|[H1 H2]].
  - rewrite H. cbn. split; [done|]. split; [by left|].
    intros Hin. apply list_elem_of_singleton in Hin. discriminate Hin.
  - rewrite H1. cbn. rewrite H2. cbn. split; [done|]. split; [by right|].
    intros Hin. apply elem_of_cons in Hin as [Hin|Hin]; [discriminate Hin|].
    apply list_elem_of_singleton in Hin. discriminate Hin.
Qed.

(** The [try] block makes its steps in order until one raises. *)
Lemma body_runs (term_code : str) (log : list command) :
  (call browser (Get (course_finder_url term_code)) ;;
   call browser (WaitPresence 20 ID (u "subjects")) ;;
   call browser NewSelect ;;
   call browser DeselectAll ;;
   call browser (SelectByValue (u "CST")) ;;
   call browser (FindElement XPATH find_courses_xpath) ;;
   call browser Click ;;
   call browser
     (WaitPresence 20 CSS_SELECTOR (u "div.courseResultsBox .courseName")) ;;
   call browser
     (ExecuteScript (u "window.scrollTo(0, document.body.scrollHeight);")) ;;
   call browser (Sleep 1) ;;
   call browser (FindElements CSS_SELECTOR (u "div.courseResultsBox")) ;;
   pure (extract (elements browser CSS_SELECTOR (u "div.courseResultsBox"))))
    log
  = (match snd (run_steps browser (body_steps term_code)) with
     | Some e => Raise e
     | None =>
         Ok (extract (elements browser CSS_SELECTOR (u "div.courseResultsBox")))
     end,
     log ++ fst (run_steps browser (body_steps term_code))).
Proof.
  unfold mbind, M_bind, and_then, call, pure, body_steps.
  cbn [run_steps].
  repeat match goal with
         | |- context [respond browser ?c] =>
             destruct (respond browser c) as [[]|?]; cbn [fst snd];
             [|by rewrite <- ?app_assoc]
         end.
  destruct (run_steps browser []) eqn:E. cbn in E. injection E as <- <-.
  cbn. by rewrite <- !app_assoc.
Qed.

(** The whole run, once the session is created. *)
Lemma collect_courses_runs (term_code : str) (headless : bool) :
  respond browser InstallDriver = Ok tt ->
  respond browser (NewSession (chrome_options headless)) = Ok tt ->
  collect_courses browser term_code headless []
  = (match respond browser Quit, snd (run_steps browser (body_steps term_code)) with
     | Raise q, _ => Raise q
     | Ok _, Some e => Raise e
     | Ok _, None =>
         Ok (extract (elements browser CSS_SELECTOR (u "div.courseResultsBox")))
     end,
     [InstallDriver; NewSession (chrome_options headless)]
     ++ fst (run_steps browser (body_steps term_code)) ++ [Quit]).
Proof.
  intros Hinstall Hsession. unfold collect_courses.
  rewrite (bind_ok _ _ tt [] _ (get_driver_ok browser headless [] Hinstall Hsession)).
  unfold try_finally. rewrite body_runs. unfold call.
  destruct (respond browser Quit) as [[]|q];
    destruct (snd (run_steps browser (body_steps term_code)));
    by rewrite <- ?app_assoc.
Qed.

(** X2.  Once the session is created, the steps of the [try] block are
    made in order up to the first one that raises, then the session is
    quit.  The run raises the exception of [quit] if it has one, else the
    exception of the step that failed, and returns the extracted list when
    there is none. *)
Theorem first_failure_ends_the_run (term_code : str) (headless : bool) :
  respond browser InstallDriver = Ok tt ->
  respond browser (NewSession (chrome_options headless)) = Ok tt ->
  collect_courses browser term_code headless []
  = (match respond browser Quit, snd (run_steps browser (body_steps term_code)) with
     | Raise q, _ => Raise q
     | Ok _, Some e => Raise e
     | Ok _, None =>
         Ok (extract (elements browser CSS_SELECTOR (u "div.courseResultsBox")))
     end,
     [InstallDriver; NewSession (chrome_options headless)]
     ++ fst (run_steps browser (body_steps term_code)) ++ [Quit]).
Proof. apply collect_courses_runs. Qed.

Lemma run_steps_subset (steps : list command) (c : command) :
  c ∈ fst (run_steps browser steps) -> c ∈ steps.
Proof.
  induction steps as [|x steps IH]; cbn [run_steps]; [done|].
  destruct (respond browser x) as [[]|e].
  - destruct (run_steps browser steps) as [l o]. cbn [fst] in *.
    intros [->|H]%elem_of_cons; [by left|right; by apply IH].
  - cbn [fst]. intros H%list_elem_of_singleton. subst. by left.
Qed.

(** Every step of a run is a launcher step, a step of the [try] block or
    the final [quit]. *)
Lemma collect_log_shape (term_code : str) (headless : bool) (c : command) :
  c ∈ snd (collect_courses browser term_code headless []) ->
  c = InstallDriver \/ c = NewSession (chrome_options headless)
  \/ c ∈ body_steps term_code \/ c = Quit.
Proof.
  destruct (respond browser InstallDriver) as [[]|e1] eqn:H1.
  - destruct (respond browser (NewSession (chrome_options headless)))
      as [[]|e2] eqn:H2.
    + rewrite collect_courses_runs by done. cbn [snd].
      intros [->|H]%elem_of_cons; [by left|].
      apply elem_of_cons in H as [->|H]; [right; by left|].
      apply elem_of_app in H as [H|H].
      * right. right. left. by apply run_steps_subset.
      * apply list_elem_of_singleton in H. by do 3 right.
    + unfold collect_courses, get_driver, mbind, M_bind, and_then, call.
      rewrite H1, H2. cbn.
      intros [->|H]%elem_of_cons; [by left|].
      apply list_elem_of_singleton in H. right. by left.
  - unfold collect_courses, get_driver, mbind, M_bind, and_then, call.
    rewrite H1. cbn. intros H%list_elem_of_singleton. by left.
Qed.

End SessionFacts.

(** The driver cannot be installed: the run raises at once. *)
Lemma no_chrome_no_session :
  fst (collect_courses no_chrome (u "202610") true []) = Raise WebDriverException
  /\ (snd (collect_courses no_chrome (u "202610") true []) = [Selenium.InstallDriver]
      \/ snd (collect_courses no_chrome (u "202610") true [])
         = [Selenium.InstallDriver; Selenium.NewSession (chrome_options true)])
  /\ Selenium.Quit ∉ snd (collect_courses no_chrome (u "202610") true []).
Proof.
  apply (launch_failure_propagates no_chrome (u "202610") true WebDriverException).
  left. reflexivity.
Defined.

(** The results never appear: the steps after the wait are not made. *)
Lemma stalled_run :
  collect_courses stalled_page (u "202610") true []
  = (Raise TimeoutException,
     [Selenium.InstallDriver; Selenium.NewSession (chrome_options true)]
     ++ firstn 8 (body_steps (u "202610")) ++ [Selenium.Quit]).
Proof.
  rewrite (first_failure_ends_the_run stalled_page (u "202610") true);
    reflexivity.
Defined.

(* ===================================================================== *)
(** ** Further properties: the extracted records *)
(* ===================================================================== *)

Lemma lstrip_head (s : str) (c : char) :
  head (lstrip s) = Some c -> isspace c = false.
Proof.
  induction s as [|x s IH]; [done|]. cbn [lstrip].
  destruct (isspace x) eqn:Hx; [done|]. cbn. by intros [= <-].
Qed.

Lemma lstrip_suffix (s : str) : exists t, s = t ++ lstrip s.
Proof.
  induction s as [|x s [t IH]]; [by exists []|]. cbn [lstrip].
  destruct (isspace x); [|by exists []].
  exists (x :: t). cbn. by rewrite <- IH.
Qed.

Lemma last_rev (s : str) : last (rev s) = head s.
Proof. destruct s as [|c s]; [done|]. cbn [rev]. by rewrite last_snoc. Qed.

(** What [strip] returns has no white space at either end. *)
Lemma strip_trimmed (s : str) : trimmed (strip s).
Proof.
  unfold trimmed, strip. split; intros c Hc.
  - destruct (lstrip_suffix (rev (lstrip s))) as [t Ht].
    apply (f_equal (@rev char)) in Ht.
    rewrite rev_involutive, rev_app_distr in Ht.
    apply (lstrip_head s c). rewrite Ht.
    by destruct (rev (lstrip (rev (lstrip s)))).
  - rewrite last_rev in Hc. by apply lstrip_head in Hc.
Qed.

(** X3.  The four fields of every extracted record are stripped: none
    starts or ends with white space, whatever the page rendered. *)
Theorem extracted_fields_are_trimmed (boxes : list Selenium.WebElement) :
  Forall (fun c => trimmed (title c) /\ trimmed (class_code c)
                   /\ trimmed (enrolled c) /\ trimmed (wait_list c))
         (extract boxes).
Proof.
  apply Forall_forall. intros c Hc.
  apply elem_of_extract in Hc as (box & _ & Hbox).
  apply read_box_ok in Hbox as (t1 & t2 & t3 & t4 & _ & _ & _ & _ & ->).
  cbn. repeat split; apply strip_trimmed.
Qed.

(* ===================================================================== *)
(** ** Further properties: pairs in the format of the page *)
(* ===================================================================== *)

Section PairFacts.

Variable unicode_zeros : list N.
Variable int_max_str_digits : nat.

#[local] Abbreviation int := (Py.int unicode_zeros int_max_str_digits).
#[local] Abbreviation parse := (_parse_pair unicode_zeros int_max_str_digits).
#[local] Abbreviation flag := (is_flagged unicode_zeros int_max_str_digits).

Lemma digits_are_digits (d : Decimal.uint) :
  Forall (fun c => isdigit c = true) (digits_of_uint d).
Proof. induction d; cbn [digits_of_uint]; by constructor. Qed.

(** The digit scan computes the number the digits write. *)
Lemma scan_digits (d : Decimal.uint) :
  forall (acc n : nat),
    scan false (Z.of_nat acc) n (digits_of_uint d)
    = Some (Z.of_nat (Nat.of_uint_acc d acc), n + length (digits_of_uint d), []).
Proof.
  induction d as [|d IH|d IH|d IH|d IH|d IH|d IH|d IH|d IH|d IH|d IH];
    intros acc n; cbn [digits_of_uint scan Nat.of_uint_acc length];
    [by rewrite Nat.add_0_r|..];
    change (isdigit _) with true; cbv iota;
    match goal with
    | |- scan false ?v (S n) _ = Some (Z.of_nat (Nat.of_uint_acc d ?m), _, _) =>
        replace v with (Z.of_nat m) by (rewrite Nat.tail_mul_spec; lia)
    end;
    rewrite IH, Nat.add_succ_r; reflexivity.
Qed.

Lemma to_ascii_digits (s : str) :
  Forall (fun c => isdigit c = true) s -> map (to_ascii unicode_zeros) s = s.
Proof.
  induction 1 as [|c s Hc _ IH]; [done|]. cbn [map]. rewrite IH. f_equal.
  unfold to_ascii, isdigit in *. nprop.
  destruct (N.ltb_spec c 127); [done|lia].
Qed.

(** [int(str(n))] is [n], for a number whose digits are below any limit. *)
Lemma int_str_of_nat (n : nat) :
  length (str_of_nat n) <= 640 -> int (str_of_nat n) = Ok (Z.of_nat n).
Proof.
  intros Hlen. unfold Py.int, str_of_nat in *.
  rewrite to_ascii_digits by apply digits_are_digits.
  pose proof (scan_digits (Nat.to_uint n) 0 0) as Hscan.
  change (Nat.of_uint_acc (Nat.to_uint n) 0) with (Nat.of_uint (Nat.to_uint n))
    in Hscan.
  rewrite DecimalNat.Unsigned.of_to in Hscan.
  change (Z.of_nat 0) with 0%Z in Hscan. cbn [Nat.add] in Hscan.
  pose proof (digits_are_digits (Nat.to_uint n)) as Hd.
  destruct (digits_of_uint (Nat.to_uint n)) as [|c r] eqn:E.
  { cbn in Hscan. injection Hscan as Hz.
    assert (n = 0) as -> by lia. discriminate E. }
  apply Forall_cons in Hd as [Hc _].
  unfold isdigit in Hc. nprop.
  unfold long_from_string, read_sign, read_digits. cbn [skip_space].
  replace (isspace_ascii c) with false
    by (symmetry; unfold isspace_ascii; apply orb_false_iff;
        split; [apply andb_false_iff; right; apply N.leb_gt|apply N.eqb_neq];
        lia).
  destruct (N.eqb_spec c PLUS) as [->|_]; [done|].
  destruct (N.eqb_spec c MINUS) as [->|_]; [done|].
  cbn [starts_with_underscore].
  destruct (N.eqb_spec c UNDERSCORE) as [->|_]; [done|].
  rewrite Hscan. unfold over_limit.
  replace (640 <? length (c :: r)) with false
    by (symmetry; apply Nat.ltb_ge; exact Hlen).
  cbn. f_equal. lia.
Qed.

Lemma no_slash_in_digits (n : nat) : SLASH ∉ str_of_nat n.
Proof.
  intros Hin. pose proof (digits_are_digits (Nat.to_uint n)) as Hd.
  rewrite Forall_forall in Hd. by apply Hd in Hin.
Qed.

Lemma parse_decimal_pair (x y : nat) (ws1 ws2 : str) :
  length (str_of_nat x) <= 640 -> length (str_of_nat y) <= 640 ->
  all_space ws1 -> all_space ws2 ->
  parse (str_of_nat x ++ ws1 ++ [SLASH] ++ ws2 ++ str_of_nat y)
  = (Z.of_nat x, Z.of_nat y).
Proof.
  intros Hx Hy H1 H2.
  apply parse_padded; try done; try apply no_slash_in_digits;
    by apply int_str_of_nat.
Qed.

(** X4.  A pair in the format of the page, two decimal numbers around a
    slash with any white space around it, parses to these two numbers. *)
Theorem page_pair_parses (x y : nat) (ws1 ws2 : str) :
  length (str_of_nat x) <= 640 -> length (str_of_nat y) <= 640 ->
  all_space ws1 -> all_space ws2 ->
  parse (str_of_nat x ++ ws1 ++ [SLASH] ++ ws2 ++ str_of_nat y)
  = (Z.of_nat x, Z.of_nat y).
Proof. apply parse_decimal_pair. Qed.

(** X5.  A record whose two counts are in the format of the page is
    flagged exactly when at most ten students are enrolled or somebody is
    on the wait list; the two limits play no part. *)
Theorem page_record_flagged (c : CourseInfo) (x l w m : nat) :
  length (str_of_nat x) <= 640 -> length (str_of_nat l) <= 640 ->
  length (str_of_nat w) <= 640 -> length (str_of_nat m) <= 640 ->
  enrolled c = str_of_nat x ++ u " " ++ [SLASH] ++ u " " ++ str_of_nat l ->
  wait_list c = str_of_nat w ++ u " " ++ [SLASH] ++ u " " ++ str_of_nat m ->
  flag c = true <-> x <= 10 \/ 0 < w.
Proof.
  intros Hx Hl Hw Hm He Hwl.
  rewrite is_flagged_spec, He, Hwl.
  rewrite !parse_decimal_pair by (try done; repeat constructor).
  cbn [fst]. lia.
Qed.

(** X6.  The two sides of a pair stand or fall together: when the limit is
    not a number the current count is lost too, the pair is [(0, 0)], and
    as an enrollment it flags the record whatever the count was. *)
Theorem bad_limit_flags (c : CourseInfo) (a b : str) (e : exn) :
  enrolled c = a ++ SLASH :: b -> SLASH ∉ a -> SLASH ∉ b ->
  int (strip b) = Raise e ->
  parse (enrolled c) = (0, 0)%Z /\ flag c = true.
Proof.
  intros He Ha Hb Hint.
  assert (Hfail : exists e', parse_pair_body unicode_zeros int_max_str_digits
                               (enrolled c) = Raise e').
  { rewrite He, parse_body_one_slash by done. rewrite Hint.
    destruct (int (strip a)) as [x|e']; [by exists e|by exists e']. }
  destruct Hfail as [e' Hfail]. split.
  - by apply (parse_failure _ _ _ e').
  - by apply (unparseable_enrollment_flagged _ _ c e').
Qed.

End PairFacts.

(** The wait list of the data structures course. *)
Lemma three_of_five :
  _parse_pair unicode_14_zeros default_max_str_digits
              (str_of_nat 3 ++ u " " ++ [SLASH] ++ u " " ++ str_of_nat 5)
  = (3, 5)%Z.
Proof.
  apply (page_pair_parses unicode_14_zeros default_max_str_digits 3 5
                          (u " ") (u " "));
    try (cbn; lia); repeat constructor.
Defined.

(** Nine students enrolled: flagged. *)
Lemma intro_to_cs_flagged :
  is_flagged unicode_14_zeros default_max_str_digits intro_to_cs = true
  <-> 9 <= 10 \/ 0 < 0.
Proof.
  apply (page_record_flagged unicode_14_zeros default_max_str_digits
                             intro_to_cs 9 25 0 0);
    try (cbn; lia); reflexivity.
Defined.

(** Twenty-five students enrolled and no limit announced: flagged. *)
Lemma seminar_flagged :
  _parse_pair unicode_14_zeros default_max_str_digits (enrolled seminar)
  = (0, 0)%Z
  /\ is_flagged unicode_14_zeros default_max_str_digits seminar = true.
Proof.
  apply (bad_limit_flags unicode_14_zeros default_max_str_digits seminar
                         (u "25 ") (u " TBA") ValueError).
  - reflexivity.
  - intros H. apply list_elem_of_In in H.
    destruct H as [H|[H|[H|[]]]]; discriminate H.
  - intros H. apply list_elem_of_In in H.
    destruct H as [H|[H|[H|[H|[]]]]]; discriminate H.
  - reflexivity.
Defined.

(* ===================================================================== *)
(** ** Further properties: the table and the file *)
(* ===================================================================== *)

Section TableFacts.

Variable unicode_zeros : list N.
Variable int_max_str_digits : nat.

Lemma len_format_row (w1 w2 w3 w4 : nat) (a b c d : str) :
  len a <= w1 -> len b <= w2 -> len c <= w3 -> len d <= w4 ->
  len (format_row w1 w2 w3 w4 a b c d) = w1 + w2 + w3 + w4 + 6.
Proof.
  intros Ha Hb Hc Hd. unfold format_row.
  pose proof (len_ljust w1 a Ha). pose proof (len_ljust w2 b Hb).
  pose proof (len_ljust w3 c Hc). pose proof (len_ljust w4 d Hd).
  unfold len in *. rewrite !length_app. cbn [u length]. lia.
Qed.

(** X7.  The table is aligned: for a non-empty list, the header, the rule
    and every line of the main table and of the flagged section have the
    same length, the four widths and the three separators; only the label
    of the flagged section stands apart. *)
Theorem table_is_aligned (c0 : CourseInfo) (cs : list CourseInfo) :
  Forall (fun l => l = flagged_label
                   \/ len l = column_width (u "Title") title c0 cs
                              + column_width (u "Class") class_code c0 cs
                              + column_width (u "Enrolled") enrolled c0 cs
                              + column_width (u "Wait List") wait_list c0 cs
                              + 6)
         (print_courses unicode_zeros int_max_str_digits (c0 :: cs)).
Proof.
  destruct (column_width_spec (u "Title") title c0 cs)
    as (Ht & Htc & _).
  destruct (column_width_spec (u "Class") class_code c0 cs)
    as (Hc & Hcc & _).
  destruct (column_width_spec (u "Enrolled") enrolled c0 cs)
    as (He & Hec & _).
  destruct (column_width_spec (u "Wait List") wait_list c0 cs)
    as (Hw & Hwc & _).
  assert (Hheader : len (table_header c0 cs)
                    = column_width (u "Title") title c0 cs
                      + column_width (u "Class") class_code c0 cs
                      + column_width (u "Enrolled") enrolled c0 cs
                      + column_width (u "Wait List") wait_list c0 cs + 6)
    by by apply len_format_row.
  assert (Hrule : len (repeat MINUS (len (table_header c0 cs)))
                  = len (table_header c0 cs)) by apply repeat_length.
  assert (Hlines : forall l : list CourseInfo,
             (forall c, c ∈ l -> c ∈ c0 :: cs) ->
             Forall (fun l => l = flagged_label
                      \/ len l = column_width (u "Title") title c0 cs
                                 + column_width (u "Class") class_code c0 cs
                                 + column_width (u "Enrolled") enrolled c0 cs
                                 + column_width (u "Wait List") wait_list c0 cs
                                 + 6)
                    (map (table_line c0 cs) l)).
  { intros l Hl. apply Forall_forall. intros x Hx.
    apply list_elem_of_In, in_map_iff in Hx as (c & <- & Hc').
    apply list_elem_of_In, Hl in Hc'. right.
    apply len_format_row; auto. }
  rewrite print_courses_cons. apply Forall_app. split.
  { apply Forall_cons. split; [by right|].
    apply Forall_cons. split; [right; congruence|apply List.Forall_nil]. }
  apply Forall_app. split; [by apply Hlines|].
  destruct (flagged_of unicode_zeros int_max_str_digits (c0 :: cs)) eqn:E;
    [apply List.Forall_nil|].
  rewrite <- E. apply Forall_app. split.
  { apply Forall_cons. split; [by left|].
    apply Forall_cons. split; [by right|].
    apply Forall_cons. split; [right; congruence|apply List.Forall_nil]. }
  apply Hlines. intros x Hx. by apply elem_of_flagged in Hx as [? _].
Qed.

End TableFacts.

Section FileFacts.

Import Csv.

Variable fs : FileSystem.

(** X8.  Whatever the fields hold that can be encoded, commas, quotes and
    line breaks included, when the path opens and the file system stores
    what is written, [save_csv] ends well and the file it wrote decodes
    and reads back as the header and the fields of the records, in
    order. *)
Theorem csv_round_trip_any (courses : list CourseInfo) (path : str) :
  open_w fs path = Ok tt ->
  (forall data, store fs path data = None) ->
  Forall encodable courses ->
  exists b,
    outcome (save_csv fs courses path) = Ok tt
    /\ file (save_csv fs courses path) = Some b
    /\ read_file b = Ok (csv_header :: map csv_fields courses).
Proof.
  intros Hopen Hstore Henc.
  destruct (save_csv_ok fs courses path
              (save_csv_encodable _ _ _ Hopen Hstore Henc))
    as (b & Hsave & Hb).
  exists b. rewrite Hsave. split; [done|]. split; [done|].
  by apply file_reads_back.
Qed.

Lemma field_plain (f : str) : existsb special f = false -> field f = f.
Proof. intros H. unfold field. rewrite H. by apply escape_plain. Qed.

Lemma writerow_plain (c : CourseInfo) :
  Forall (fun f => existsb special f = false) (csv_fields c) ->
  writerow (csv_fields c)
  = title c ++ [COMMA] ++ class_code c ++ [COMMA] ++ enrolled c
    ++ [COMMA] ++ wait_list c ++ [CR; LF].
Proof.
  unfold csv_fields. intros H.
  apply Forall_cons in H as [H1 H]. apply Forall_cons in H as [H2 H].
  apply Forall_cons in H as [H3 H]. apply Forall_cons in H as [H4 _].
  unfold writerow. cbn [join]. rewrite !field_plain by done.
  destruct (title c); repeat (rewrite <- app_assoc; cbn [app]); reflexivity.
Qed.

(** X9.  Records none of whose fields holds a comma, a quote or a line
    break are written as they are: when the path opens, the file system
    stores what is written and the fields can be encoded, the file
    [save_csv] writes is the UTF-8 encoding of the header line followed,
    for each record in order, by its four fields separated by commas and
    the line terminator, with no quote added. *)
Theorem plain_record_written_verbatim (courses : list CourseInfo) (path : str) :
  open_w fs path = Ok tt ->
  (forall data, store fs path data = None) ->
  Forall encodable courses ->
  Forall (fun c => Forall (fun f => existsb special f = false) (csv_fields c))
         courses ->
  exists b,
    file (save_csv fs courses path) = Some b
    /\ utf8_encode
         (u "Title,Class,Enrolled,Wait List" ++ [CR; LF]
          ++ concat (map (fun c => title c ++ [COMMA] ++ class_code c
                                   ++ [COMMA] ++ enrolled c ++ [COMMA]
                                   ++ wait_list c ++ [CR; LF]) courses))
       = Ok b.
Proof.
  intros Hopen Hstore Henc Hplain.
  destruct (save_csv_ok fs courses path
              (save_csv_encodable _ _ _ Hopen Hstore Henc))
    as (b & Hsave & Hb).
  exists b. rewrite Hsave. split; [done|]. rewrite <- Hb.
  rewrite (map_ext_in _ (fun c => writerow (csv_fields c))).
  - unfold csv_text. cbn [map concat]. by rewrite map_map.
  - intros c Hc. rewrite List.Forall_forall in Hplain.
    symmetry. by apply writerow_plain, Hplain.
Qed.

(** X17.  The first record with a field that cannot be encoded ends the
    export: on a file system that does not fail, [save_csv] raises
    [UnicodeEncodeError], prints no message, and leaves a file with the
    header row and the rows of the records before that one, nothing of it
    and nothing after it. *)
Theorem unencodable_record_ends_export (before after : list CourseInfo)
        (c : CourseInfo) (path : str) :
  open_w fs path = Ok tt ->
  (forall data, store fs path data = None) ->
  Forall encodable before ->
  ~ encodable c ->
  exists b,
    save_csv fs (before ++ c :: after) path
    = {| outcome := Raise UnicodeEncodeError; file := Some b; printed := [] |}
    /\ utf8_encode (csv_text before) = Ok b
    /\ read_file b = Ok (csv_header :: map csv_fields before).
Proof.
  intros Hopen Hstore Henc Hc.
  destruct (save_csv_ok fs before path
              (save_csv_encodable _ _ _ Hopen Hstore Henc))
    as (b & Hsave & Hb).
  exists b. split; [|split; [done|by apply file_reads_back]].
  assert (write_rows (csv_header :: map csv_fields before) = (b, None))
    as Hrows.
  { revert Hsave. unfold save_csv. rewrite Hopen.
    destruct (write_rows (csv_header :: map csv_fields before)) as [d [e|]];
      rewrite Hstore; [done|]. by intros [= ->]. }
  unfold save_csv. rewrite Hopen, map_app. cbn [map].
  rewrite app_comm_cons.
  rewrite (write_rows_stops _ _ _ _ Hrows); [by rewrite Hstore|].
  destruct (forallb (forallb scalar) (csv_fields c)) eqn:E; [|done].
  exfalso. apply Hc. unfold encodable.
  rewrite forallb_forall in E. apply List.Forall_forall.
  intros f Hf. by apply E.
Qed.

(** X18.  The message is printed for a complete file only: whenever
    [save_csv] prints a line, it is the message with the number of
    records and the path, the export ended well, and the file holds the
    encoding of the header row and of every record's row, which reads
    back as the header and the records.  An export that failed, in
    [open], in the encoding of a row or in the file system, prints
    nothing. *)
Theorem message_means_saved (courses : list CourseInfo) (path : str)
        (line : str) :
  line ∈ printed (save_csv fs courses path) ->
  line = u "Saved " ++ str_of_nat (length courses) ++ u " courses to " ++ path
  /\ outcome (save_csv fs courses path) = Ok tt
  /\ exists b,
       file (save_csv fs courses path) = Some b
       /\ utf8_encode (csv_text courses) = Ok b
       /\ read_file b = Ok (csv_header :: map csv_fields courses).
Proof.
  destruct (outcome (save_csv fs courses path)) as [[]|e] eqn:Ho.
  - destruct (save_csv_ok _ _ _ Ho) as (b & Hsave & Hb).
    rewrite Hsave. cbn [printed file].
    intros Hin%list_elem_of_singleton. split; [done|]. split; [done|].
    exists b. split; [done|]. split; [done|]. by apply file_reads_back.
  - rewrite (save_csv_raises _ _ _ _ Ho). by intros Hin%elem_of_nil.
Qed.

End FileFacts.

(** A title with a comma, a quotation and a line break is quoted, its
    quotes doubled, and comes back as it was. *)
Example awkward_title_survives :
  Csv.writerow (csv_fields awkward)
  = [QUOTE] ++ u "Data, " ++ [QUOTE; QUOTE] ++ u "Big" ++ [QUOTE; QUOTE; CR; LF]
    ++ u "and Small" ++ [QUOTE] ++ u ",CST 301-01,12 / 20,0 / 5" ++ [CR; LF].
Proof. vm_compute; reflexivity. Qed.

(** The export of that record alone. *)
Lemma awkward_round_trip :
  exists b,
    outcome (save_csv writable [awkward] (u "courses.csv")) = Ok tt
    /\ file (save_csv writable [awkward] (u "courses.csv")) = Some b
    /\ Csv.read_file b = Ok [csv_header; csv_fields awkward].
Proof.
  apply (csv_round_trip_any writable [awkward] (u "courses.csv")).
  - reflexivity.
  - reflexivity.
  - repeat constructor.
Defined.

(** The scenario of the specification, as written. *)
Lemma scenario_file :
  exists b,
    file (save_csv writable [intro_to_cs; data_structures] (u "courses.csv"))
    = Some b
    /\ utf8_encode
         (u "Title,Class,Enrolled,Wait List" ++ [CR; LF]
          ++ concat (map (fun c => title c ++ [COMMA] ++ class_code c
                                   ++ [COMMA] ++ enrolled c ++ [COMMA]
                                   ++ wait_list c ++ [CR; LF])
                         [intro_to_cs; data_structures]))
       = Ok b.
Proof.
  apply (plain_record_written_verbatim writable [intro_to_cs; data_structures]
           (u "courses.csv")).
  - reflexivity.
  - reflexivity.
  - repeat constructor.
  - repeat constructor.
Defined.

(** The message of the scenario's export. *)
Lemma scenario_message :
  u "Saved 2 courses to courses.csv"
  = u "Saved " ++ str_of_nat (length [intro_to_cs; data_structures])
    ++ u " courses to " ++ u "courses.csv"
  /\ outcome (save_csv writable [intro_to_cs; data_structures]
                       (u "courses.csv")) = Ok tt
  /\ exists b,
       file (save_csv writable [intro_to_cs; data_structures]
                      (u "courses.csv")) = Some b
       /\ utf8_encode (csv_text [intro_to_cs; data_structures]) = Ok b
       /\ Csv.read_file b
          = Ok (csv_header :: map csv_fields [intro_to_cs; data_structures]).
Proof.
  apply (message_means_saved writable [intro_to_cs; data_structures]
           (u "courses.csv") (u "Saved 2 courses to courses.csv")).
  apply list_elem_of_In. left. reflexivity.
Defined.

(** No room after 20 bytes: the export raises the error of the file
    system, the file is cut there and no message is printed. *)
Example full_disk_export :
  save_csv full_disk [intro_to_cs] (u "courses.csv")
  = {| outcome := Raise OSError;
       file := Some (u "Title,Class,Enrolled");
       printed := [] |}.
Proof. vm_compute; reflexivity. Qed.

(** A record with a lone surrogate after the first of the scenario. *)
Lemma surrogate_after_intro :
  exists b,
    save_csv writable ([intro_to_cs] ++ surrogate_title :: [data_structures])
             (u "courses.csv")
    = {| outcome := Raise UnicodeEncodeError; file := Some b; printed := [] |}
    /\ utf8_encode (csv_text [intro_to_cs]) = Ok b
    /\ Csv.read_file b = Ok (csv_header :: map csv_fields [intro_to_cs]).
Proof.
  apply (unencodable_record_ends_export writable [intro_to_cs]
           [data_structures] surrogate_title (u "courses.csv")).
  - reflexivity.
  - reflexivity.
  - repeat constructor.
  - intros H. apply Forall_cons in H as [H _]. discriminate H.
Defined.

(* ===================================================================== *)
(** ** Further properties: the entry point *)
(* ===================================================================== *)

Section MainFacts.

Import Selenium.

Variable unicode_zeros : list N.
Variable int_max_str_digits : nat.
Variable browser : Browser.
Variable fs : FileSystem.

#[local] Abbreviation run := (main unicode_zeros int_max_str_digits browser fs).

(** A run of [collect_courses] that returns has quit the session last. *)
Lemma collect_ok_quits (term_code : str) (headless : bool)
      (courses : list CourseInfo) :
  fst (collect_courses browser term_code headless []) = Ok courses ->
  exists l, snd (collect_courses browser term_code headless []) = l ++ [Quit].
Proof.
  destruct (respond browser InstallDriver) as [[]|e1] eqn:H1.
  - destruct (respond browser (NewSession (chrome_options headless)))
      as [[]|e2] eqn:H2.
    + intros _. unfold collect_courses.
      rewrite (bind_ok _ _ tt [] _ (get_driver_ok browser headless [] H1 H2)).
      rewrite try_finally_quit. eauto.
    + unfold collect_courses, get_driver, mbind, M_bind, and_then, call.
      by rewrite H1, H2.
  - unfold collect_courses, get_driver, mbind, M_bind, and_then, call.
    by rewrite H1.
Qed.


Lemma no_driver_in_prints (lines : list str) :
  Forall (fun ev => ~ is_driver ev) (map Print lines).
Proof. induction lines; constructor; auto. Qed.

Lemma no_write_in_drivers (log : list command) :
  Forall (fun ev => ~ is_write ev) (map Driver log).
Proof. induction log; constructor; auto. Qed.

Lemma no_write_in_prints (lines : list str) :
  Forall (fun ev => ~ is_write ev) (map Print lines).
Proof. induction lines; constructor; auto. Qed.

Lemma no_driver_in_export (path : str) (x : Export) :
  Forall (fun ev => ~ is_driver ev) (export_events path x).
Proof.
  unfold export_events. apply Forall_app. split; [|apply no_driver_in_prints].
  destruct (file x); constructor; auto.
Qed.

Lemma print_courses_not_empty (courses : list CourseInfo) :
  print_courses unicode_zeros int_max_str_digits courses <> [].
Proof. by destruct courses. Qed.

(** The run, once the courses are collected and a path is given. *)
Lemma main_export (args : Namespace) (courses : list CourseInfo)
      (c : char) (p : str) :
  fst (collect_courses browser (term args) (negb (show_browser args)) [])
  = Ok courses ->
  csv_path args = Some (c :: p) ->
  run args
  = (match outcome (save_csv fs courses (c :: p)) with
     | Ok _ => Ok 0%Z
     | Raise e => Raise e
     end,
     map Driver
         (snd (collect_courses browser (term args)
                               (negb (show_browser args)) []))
     ++ map Print (print_courses unicode_zeros int_max_str_digits courses)
     ++ export_events (c :: p) (save_csv fs courses (c :: p))).
Proof.
  unfold main. intros Hc ->.
  destruct (collect_courses browser (term args) (negb (show_browser args)) [])
    as [r log]. cbn [fst snd] in *. by subst r.
Qed.



(** X11.  A run that returns returns 0, also when no course was found; it
    has quit the browser session before printing anything, and it has
    printed something. *)
Theorem output_follows_the_session (args : Namespace) (z : Z) :
  fst (run args) = Ok z ->
  z = 0%Z
  /\ exists log out,
       snd (run args) = map Driver (log ++ [Quit]) ++ out
       /\ Forall (fun ev => ~ is_driver ev) out
       /\ out <> [].
Proof.
  unfold main.
  pose proof (collect_ok_quits (term args) (negb (show_browser args))) as Hq.
  destruct (collect_courses browser (term args) (negb (show_browser args)) [])
    as [[courses|e'] log]; [|done].
  destruct (Hq courses eq_refl) as [l Hl]. cbn [snd] in Hl. subst log.
  pose proof (print_courses_not_empty courses) as Hne.
  assert (forall rest,
             map Print (print_courses unicode_zeros int_max_str_digits courses)
             ++ rest <> []) as Hout.
  { intros rest.
    destruct (print_courses unicode_zeros int_max_str_digits courses);
      [done|discriminate]. }
  destruct (csv_path args) as [[|c p]|]; cbn [fst snd].
  - intros [= <-]. split; [done|]. exists l. eexists.
    split; [reflexivity|]. split; [apply no_driver_in_prints|].
    rewrite <- (app_nil_r (map Print _)). apply Hout.
  - destruct (outcome (save_csv fs courses (c :: p))) as [[]|e0]; [|done].
    intros [= <-]. split; [done|]. exists l. eexists.
    split; [reflexivity|]. split; [|apply Hout].
    apply Forall_app. split;
      [apply no_driver_in_prints|apply no_driver_in_export].
  - intros [= <-]. split; [done|]. exists l. eexists.
    split; [reflexivity|]. split; [apply no_driver_in_prints|].
    rewrite <- (app_nil_r (map Print _)). apply Hout.
Qed.

(** X12.  Without [--csv], or with an empty path, no file is written,
    however the run ends. *)
Theorem no_path_no_file (args : Namespace) :
  csv_path args = None \/ csv_path args = Some [] ->
  Forall (fun ev => ~ is_write ev) (snd (run args)).
Proof.
  intros Hpath. unfold main.
  destruct (collect_courses browser (term args) (negb (show_browser args)) [])
    as [[courses|e'] log]; [|apply no_write_in_drivers].
  destruct Hpath as [-> | ->]; cbn [snd];
    (apply Forall_app; split;
     [apply no_write_in_drivers|apply no_write_in_prints]).
Qed.

(** X13.  With a path, a run that returns ends by writing the file of the
    courses it collected at that path, once, and then printing how many
    courses it saved; the file is the encoding of the header row and the
    rows of these courses, and it reads back as the header and these
    courses. *)
Theorem export_ends_the_run (args : Namespace) (z : Z) (c : char) (p : str) :
  fst (run args) = Ok z ->
  csv_path args = Some (c :: p) ->
  exists courses before content,
    fst (collect_courses browser (term args) (negb (show_browser args)) [])
    = Ok courses
    /\ snd (run args)
       = before
         ++ [Write (c :: p) content;
             Print (u "Saved " ++ str_of_nat (length courses)
                    ++ u " courses to " ++ c :: p)]
    /\ Forall (fun ev => ~ is_write ev) before
    /\ file (save_csv fs courses (c :: p)) = Some content
    /\ utf8_encode (csv_text courses) = Ok content
    /\ Csv.read_file content = Ok (csv_header :: map csv_fields courses).
Proof.
  intros Hok Hpath.
  destruct (fst (collect_courses browser (term args)
                                 (negb (show_browser args)) []))
    as [courses|e'] eqn:Hc.
  - rewrite (main_export args courses c p Hc Hpath) in *.
    cbn [fst snd] in *.
    destruct (outcome (save_csv fs courses (c :: p))) as [[]|e0] eqn:Ho;
      [|done].
    destruct (save_csv_ok _ _ _ Ho) as (b & Hsave & Hb).
    exists courses. eexists. exists b. split; [done|].
    rewrite Hsave. unfold export_events. cbn [file printed map app].
    split; [by rewrite app_assoc|]. split; [|split; [done|split; [done|]]].
    + apply Forall_app. split;
        [apply no_write_in_drivers|apply no_write_in_prints].
    + by apply file_reads_back.
  - revert Hok Hc. unfold main.
    by destruct (collect_courses browser (term args)
                                 (negb (show_browser args)) [])
      as [[?|?] ?]; cbn [fst]; [intros _ [=]|].
Qed.

Lemma driver_events (args : Namespace) (c : command) :
  Driver c ∈ snd (run args) ->
  c ∈ snd (collect_courses browser (term args) (negb (show_browser args)) []).
Proof.
  assert (forall log, Driver c ∈ map Driver log -> c ∈ log) as Hlog.
  { intros log H.
    apply list_elem_of_In, in_map_iff in H as (x & [= ->] & H).
    by apply list_elem_of_In. }
  assert (forall out, Forall (fun ev => ~ is_driver ev) out ->
                      Driver c ∉ out) as Hout.
  { intros out Hall Hin. rewrite Forall_forall in Hall.
    by apply (Hall _ Hin). }
  unfold main.
  destruct (collect_courses browser (term args) (negb (show_browser args)) [])
    as [[courses|e'] log]; [|apply Hlog].
  destruct (csv_path args) as [[|x p]|]; cbn [snd];
    intros [H|H]%elem_of_app; try by apply Hlog.
  - by apply Hout in H; [|apply no_driver_in_prints].
  - apply Hout in H; [done|]. apply Forall_app. split;
      [apply no_driver_in_prints|apply no_driver_in_export].
  - by apply Hout in H; [|apply no_driver_in_prints].
Qed.

(** X14.  The browser is created with the options of [get_driver] for
    [headless = not args.show_browser]: it is headless exactly when
    [--show-browser] is absent. *)
Theorem headless_unless_shown (args : Namespace) (options : ChromeOptions) :
  Driver (NewSession options) ∈ snd (run args) ->
  options = chrome_options (negb (show_browser args))
  /\ (u "--headless=new" ∈ arguments options <-> show_browser args = false).
Proof.
  intros H. apply driver_events, collect_log_shape in H.
  destruct H as [H|[H|[H|H]]]; try discriminate H.
  - injection H as ->. split; [done|].
    destruct (show_browser args); cbn [negb chrome_options arguments app].
    + split; [|done]. intros Hin. vm_compute in Hin.
      repeat (apply elem_of_cons in Hin as [Hin|Hin]; [discriminate Hin|]).
      by apply elem_of_nil in Hin.
    + split; [done|]. intros _. by left.
  - exfalso. unfold body_steps in H.
    repeat (apply elem_of_cons in H as [H|H]; [discriminate H|]).
    by apply elem_of_nil in H.
Qed.

(** X15.  The only page a run loads is the course finder of the term
    given on the command line, passed into the address as it is. *)
Theorem only_the_course_finder (args : Namespace) (url : str) :
  Driver (Get url) ∈ snd (run args) ->
  url = u "https://banner.roosevelt.edu/ssbprod/bwskzenr.P_CourseFinder?TERM="
        ++ term args.
Proof.
  intros H. apply driver_events, collect_log_shape in H.
  destruct H as [H|[H|[H|H]]]; try discriminate H.
  unfold body_steps in H.
  apply elem_of_cons in H as [H|H]; [by injection H|].
  exfalso.
  repeat (apply elem_of_cons in H as [H|H]; [discriminate H|]).
  by apply elem_of_nil in H.
Qed.

End MainFacts.



(** One course found: the run returns 0 after the session. *)
Lemma two_box_run_returns :
  0%Z = 0%Z
  /\ exists log out,
       snd (main unicode_14_zeros default_max_str_digits two_box_page
                 writable (fall_2025 None))
       = map Driver (log ++ [Selenium.Quit]) ++ out
       /\ Forall (fun ev => ~ is_driver ev) out
       /\ out <> [].
Proof.
  apply (output_follows_the_session unicode_14_zeros default_max_str_digits
           two_box_page writable (fall_2025 None) 0).
  reflexivity.
Defined.

(** [--csv ''] exports nothing. *)
Lemma empty_path_no_file :
  Forall (fun ev => ~ is_write ev)
         (snd (main unicode_14_zeros default_max_str_digits two_box_page
                    writable (fall_2025 (Some [])))).
Proof.
  apply (no_path_no_file unicode_14_zeros default_max_str_digits
           two_box_page writable (fall_2025 (Some []))).
  right. reflexivity.
Defined.

(** [--csv courses.csv] on the page with one readable container. *)
Lemma two_box_run_exports :
  exists courses before content,
    fst (collect_courses two_box_page (term (fall_2025 (Some (u "courses.csv"))))
           (negb (show_browser (fall_2025 (Some (u "courses.csv"))))) [])
    = Ok courses
    /\ snd (main unicode_14_zeros default_max_str_digits two_box_page
                 writable (fall_2025 (Some (u "courses.csv"))))
       = before
         ++ [Write (u "courses.csv") content;
             Print (u "Saved " ++ str_of_nat (length courses)
                    ++ u " courses to " ++ u "courses.csv")]
    /\ Forall (fun ev => ~ is_write ev) before
    /\ file (save_csv writable courses (u "courses.csv")) = Some content
    /\ utf8_encode (csv_text courses) = Ok content
    /\ Csv.read_file content = Ok (csv_header :: map csv_fields courses).
Proof.
  apply (export_ends_the_run unicode_14_zeros default_max_str_digits
           two_box_page writable (fall_2025 (Some (u "courses.csv"))) 0
           99%N (u "ourses.csv"));
    reflexivity.
Defined.

(** The default run is headless. *)
Lemma default_run_is_headless :
  chrome_options true = chrome_options (negb (show_browser (fall_2025 None)))
  /\ (u "--headless=new" ∈ Selenium.arguments (chrome_options true)
      <-> show_browser (fall_2025 None) = false).
Proof.
  apply (headless_unless_shown unicode_14_zeros default_max_str_digits
           two_box_page writable (fall_2025 None) (chrome_options true)).
  apply list_elem_of_In. right. left. reflexivity.
Defined.

(** The page loaded for the term 202610. *)
Lemma fall_2025_page :
  course_finder_url (u "202610")
  = u "https://banner.roosevelt.edu/ssbprod/bwskzenr.P_CourseFinder?TERM="
    ++ term (fall_2025 None).
Proof.
  apply (only_the_course_finder unicode_14_zeros default_max_str_digits
           two_box_page writable (fall_2025 None)
           (course_finder_url (u "202610"))).
  apply list_elem_of_In. do 2 right. left. reflexivity.
Defined.
